(** * Veo / Imagen agent: state containers, action handlers and image store

    A shallow embedding of the agent's action handlers
    ([lib/agent/actions-fixed.ts]), of its composed state containers
    ([lib/agent/index.ts]) and of the file-backed image store
    ([lib/storage/image-store.ts]), with the properties the specification
    states about them. *)

From Stdlib Require Import QArith Qcanon.
From Stdlib.Strings Require Import Ascii String Byte.
From stdpp Require Import base numbers strings list gmap pretty.

Local Open Scope string_scope.
Local Open Scope list_scope.

(** ** Base64, as [Buffer.from(s, 'base64')] and [buf.toString('base64')]

    Node's decoder is lenient: it never throws, skips every character that
    is outside the alphabet, accepts the URL-safe characters [-] and [_],
    and stops at the first padding character.  The encoder emits the
    standard alphabet with [=] padding. *)
Module Base64.

Definition alphabet : string :=
  "ABCDEFGHIJKLMNOPQRSTUVWXYZabcdefghijklmnopqrstuvwxyz0123456789+/".

Definition b64_char (n : N) : ascii :=
  default "A"%char (String.get (N.to_nat n) alphabet).

Definition unbase64 (c : ascii) : option N :=
  let n := N_of_ascii c in
  if (65 <=? n)%N && (n <=? 90)%N then Some (n - 65)%N
  else if (97 <=? n)%N && (n <=? 122)%N then Some (n - 71)%N
  else if (48 <=? n)%N && (n <=? 57)%N then Some (n + 4)%N
  else if (n =? 43)%N || (n =? 45)%N then Some 62%N
  else if (n =? 47)%N || (n =? 95)%N then Some 63%N
  else None.

Definition byte_of_N (n : N) : byte :=
  default Byte.x00 (Byte.of_N (n mod 256)%N).

(** The 6-bit groups of a byte sequence, most significant first. *)
Fixpoint encode_sextets (bs : list byte) : list N :=
  match bs with
  | [] => []
  | [a] =>
      let m := (Byte.to_N a * 16)%N in
      [(m / 64)%N; (m mod 64)%N]
  | [a; b] =>
      let m := ((Byte.to_N a * 256 + Byte.to_N b) * 4)%N in
      [(m / 4096)%N; (m / 64 mod 64)%N; (m mod 64)%N]
  | a :: b :: c :: rest =>
      let m := (Byte.to_N a * 65536 + Byte.to_N b * 256 + Byte.to_N c)%N in
      (m / 262144)%N :: (m / 4096 mod 64)%N :: (m / 64 mod 64)%N
        :: (m mod 64)%N :: encode_sextets rest
  end.

Fixpoint string_of_sextets (l : list N) : string :=
  match l with
  | [] => ""
  | n :: l' => String (b64_char n) (string_of_sextets l')
  end.

Definition padding (len : nat) : string :=
  match len mod 3 with
  | 1 => "=="
  | 2 => "="
  | _ => ""
  end.

(** [buffer.toString('base64')] *)
Definition base64_encode (bs : list byte) : string :=
  string_of_sextets (encode_sextets bs) +:+ padding (length bs).

(** The alphabet characters of a string up to the first [=]. *)
Fixpoint sextets (s : string) : list N :=
  match s with
  | EmptyString => []
  | String c s' =>
      if Ascii.eqb c "="%char then []
      else match unbase64 c with
           | Some n => n :: sextets s'
           | None => sextets s'
           end
  end.

Fixpoint decode_sextets (l : list N) : list byte :=
  match l with
  | s1 :: s2 :: s3 :: s4 :: rest =>
      let m := (((s1 * 64 + s2) * 64 + s3) * 64 + s4)%N in
      byte_of_N (m / 65536) :: byte_of_N (m / 256) :: byte_of_N m
        :: decode_sextets rest
  | [s1; s2; s3] =>
      let m := ((s1 * 64 + s2) * 64 + s3)%N in
      [byte_of_N (m / 1024); byte_of_N (m / 4)]
  | [s1; s2] =>
      let m := (s1 * 64 + s2)%N in
      [byte_of_N (m / 16)]
  | _ => []
  end.

(** [Buffer.from(s, 'base64')] *)
Definition base64_decode (s : string) : list byte :=
  decode_sextets (sextets s).

End Base64.

(** ** String helpers used by the handlers *)

(** [s.startsWith(p)], returning the remainder of [s] after [p]. *)
Fixpoint strip_prefix (p s : string) : option string :=
  match p, s with
  | EmptyString, _ => Some s
  | String a p', String b s' =>
      if Ascii.eqb a b then strip_prefix p' s' else None
  | String _ _, EmptyString => None
  end.

Definition startsWith (s p : string) : bool :=
  bool_decide (is_Some (strip_prefix p s)).

(** The regular-expression class [\w]: [A-Za-z0-9_]. *)
Definition is_word_char (c : ascii) : bool :=
  let n := N_of_ascii c in
  ((65 <=? n)%N && (n <=? 90)%N) || ((97 <=? n)%N && (n <=? 122)%N)
  || ((48 <=? n)%N && (n <=? 57)%N) || (n =? 95)%N.

Fixpoint skip_word (s : string) : string :=
  match s with
  | EmptyString => EmptyString
  | String c s' => if is_word_char c then skip_word s' else s
  end.

(** The text after the first match of [sep] (one character), if any. *)
Fixpoint after_first (sep : ascii) (s : string) : option string :=
  match s with
  | EmptyString => None
  | String c s' => if Ascii.eqb c sep then Some s' else after_first sep s'
  end.

(** [s.split(sep)] for a one-character separator. *)
Fixpoint split (sep : ascii) (s : string) : list string :=
  match s with
  | EmptyString => [EmptyString]
  | String c s' =>
      if Ascii.eqb c sep then EmptyString :: split sep s'
      else match split sep s' with
           | [] => [String c EmptyString]
           | w :: ws => String c w :: ws
           end
  end.

(** [s.replace(pat, '')] for a literal [pat]: the first occurrence goes. *)
Fixpoint remove_first (pat s : string) : string :=
  match strip_prefix pat s with
  | Some rest => rest
  | None => match s with
            | EmptyString => EmptyString
            | String c s' => String c (remove_first pat s')
            end
  end.

(** ** The image store ([lib/storage/image-store.ts])

    The disk is a finite map from file path to file contents.  A write
    creates or replaces the file, a read or an unlink of a missing file
    throws (and the store catches it).  [path.join] is rendered as joining
    with a slash. *)
Module ImageStore.

Definition path_join (dir file : string) : string := dir +:+ "/" +:+ file.

Definition IMAGE_DIR : string := path_join "public" "generated-images".

(** The match of [/^data:image\/\w+;base64,/] at the start of [s]: the
    text that follows it.  [\w+] is greedy and the character after it must
    be [;], which is not a word character, so the match is the whole run of
    word characters or nothing. *)
Definition match_data_image_prefix (s : string) : option string :=
  match strip_prefix "data:image/" s with
  | Some rest =>
      match rest with
      | String c _ =>
          if is_word_char c then strip_prefix ";base64," (skip_word rest)
          else None
      | EmptyString => None
      end
  | None => None
  end.

Definition image_path (imageId : string) : string :=
  path_join IMAGE_DIR (imageId +:+ ".png").

Definition saveImage (imageId base64Data : string) (disk : gmap string (list byte))
  : string * gmap string (list byte) :=
  let base64 := default base64Data (match_data_image_prefix base64Data) in
  let buffer := Base64.base64_decode base64 in
  let filename := imageId +:+ ".png" in
  let filepath := path_join IMAGE_DIR filename in
  ("/generated-images/" +:+ filename, <[filepath := buffer]> disk).

Definition loadImage (imageId : string) (disk : gmap string (list byte))
  : option string :=
  match disk !! image_path imageId with
  | Some buffer => Some ("data:image/png;base64," +:+ Base64.base64_encode buffer)
  | None => None
  end.

Definition deleteImage (imageId : string) (disk : gmap string (list byte))
  : gmap string (list byte) :=
  delete (image_path imageId) disk.

Definition clearProjectImages (imageIds : list string)
  (disk : gmap string (list byte)) : gmap string (list byte) :=
  foldl (fun d id => deleteImage id d) disk imageIds.


End ImageStore.

(** ** JavaScript values

    Provider responses and handler results are untyped JavaScript values.
    Numbers are exact rationals. *)
#[warnings="-register-all"] Inductive Json : Type :=
  | JUndefined
  | JNull
  | JBool (b : bool)
  | JNum (q : Qc)
  | JStr (s : string)
  | JArr (elements : list Json)
  | JObj (fields : list (string * Json)).

(** A thrown value: an [Error] with its message, or any other value. *)
Inductive Exn : Type :=
  | ErrorObj (message : string)
  | ThrownValue (v : Json).

(** [error instanceof Error ? error.message : 'Unknown error'] *)
Definition error_message (e : Exn) : string :=
  match e with
  | ErrorObj m => m
  | ThrownValue _ => "Unknown error"
  end.

Module JS.

Definition truthy (j : Json) : bool :=
  match j with
  | JUndefined | JNull => false
  | JBool b => b
  | JNum q => negb (bool_decide (q = 0%Qc))
  | JStr s => negb (bool_decide (s = ""))
  | JArr _ | JObj _ => true
  end.

(** [a || b] *)
Definition or_else (a b : Json) : Json := if truthy a then a else b.

Fixpoint assoc (k : string) (fields : list (string * Json)) : option Json :=
  match fields with
  | [] => None
  | (k', v) :: rest => if bool_decide (k' = k) then Some v else assoc k rest
  end.

(** [j.k]: a [TypeError] on [null] and [undefined]. *)
Definition get (k : string) (j : Json) : Exn + Json :=
  match j with
  | JUndefined | JNull =>
      inl (ErrorObj ("Cannot read properties of undefined (reading '" +:+ k +:+ "')"))
  | JObj fields => inr (default JUndefined (assoc k fields))
  | _ => inr JUndefined
  end.

(** [j?.k] *)
Definition opt_get (k : string) (j : Json) : Json :=
  match j with
  | JObj fields => default JUndefined (assoc k fields)
  | _ => JUndefined
  end.

(** [j?.[0]] *)
Definition opt_first (j : Json) : Json :=
  match j with
  | JArr (x :: _) => x
  | JStr (String c _) => JStr (String c EmptyString)
  | _ => JUndefined
  end.

Definition show_number (q : Qc) : string :=
  let n := Qnum (this q) in
  let d := Qden (this q) in
  if bool_decide (d = 1%positive) then pretty n
  else pretty n +:+ "/" +:+ pretty (Zpos d).

Fixpoint join (sep : string) (l : list string) : string :=
  match l with
  | [] => ""
  | [x] => x
  | x :: rest => x +:+ sep +:+ join sep rest
  end.

(** String conversion, as in a template literal.  The decimal expansion of
    a number that is not an integer is not modelled: it shows as a
    fraction. *)
Fixpoint to_string (j : Json) : string :=
  match j with
  | JUndefined => "undefined"
  | JNull => "null"
  | JBool true => "true"
  | JBool false => "false"
  | JNum q => show_number q
  | JStr s => s
  | JArr l =>
      join "," (map (fun x => match x with
                              | JUndefined | JNull => ""
                              | _ => to_string x
                              end) l)
  | JObj _ => "[object Object]"
  end.

Definition of_option_string (o : option string) : Json :=
  match o with
  | Some s => JStr s
  | None => JUndefined
  end.

Definition of_nat (n : nat) : Json := JNum (Qc_of_Z (Z.of_nat n)).

End JS.

(** ** The world outside a handler *)

Record Response : Type := {
  ok : bool;
  statusText : string;
  (** [response.json()] *)
  json : Exn + Json;
  (** [URL.createObjectURL(await response.blob())] *)
  blobUrl : Exn + string;
}.

Inductive Call : Type :=
  | PostForm (url : string) (form : list (string * string))
  | PostJson (url : string) (body : Json).

(** What a handler cannot decide: the answer to each outbound request (by
    its position among the handler's requests), the clock and the UUID
    source (by the position of the reading). *)
Record Env : Type := {
  NEXT_PUBLIC_URL : option string;
  fetch : nat → Call → Exn + Response;
  Date_now : nat → Z;
  randomUUID : nat → string;
}.

(** [process.env.NEXT_PUBLIC_URL || 'http://localhost:3000'] *)
Definition baseUrl (env : Env) : string :=
  match NEXT_PUBLIC_URL env with
  | Some u => if bool_decide (u = "") then "http://localhost:3000" else u
  | None => "http://localhost:3000"
  end.

(** ** Handler monad: state of one container, the disk, the requests made
    so far, and exceptions.  A throw keeps the state reached. *)
Record HState (Mem : Type) : Type := mkHState {
  memory : Mem;
  disk : gmap string (list byte);
  calls : list Call;
  tick : nat;
}.
Arguments mkHState {Mem}.
Arguments memory {Mem}.
Arguments disk {Mem}.
Arguments calls {Mem}.
Arguments tick {Mem}.

Definition M (Mem A : Type) : Type := HState Mem → (Exn + A) * HState Mem.

Module HandlerMonad.
Section ops.
Context {Mem : Type}.

Definition ret {A} (a : A) : M Mem A := fun s => (inr a, s).

Definition bind {A B} (m : M Mem A) (k : A → M Mem B) : M Mem B :=
  fun s => match m s with
           | (inr a, s') => k a s'
           | (inl e, s') => (inl e, s')
           end.

Definition throw {A} (e : Exn) : M Mem A := fun s => (inl e, s).

Definition try_catch {A} (body : M Mem A) (handler : Exn → M Mem A) : M Mem A :=
  fun s => match body s with
           | (inr a, s') => (inr a, s')
           | (inl e, s') => handler e s'
           end.

(** Lifts the outcome of a property access or of [response.json()]. *)
Definition lift {A} (r : Exn + A) : M Mem A := fun s => (r, s).

Definition get_memory : M Mem Mem := fun s => (inr (memory s), s).

Definition set_memory (m : Mem) : M Mem unit :=
  fun s => (inr tt, mkHState m (disk s) (calls s) (tick s)).

Definition now (env : Env) : M Mem Z :=
  fun s => (inr (Date_now env (tick s)),
            mkHState (memory s) (disk s) (calls s) (S (tick s))).

Definition uuid (env : Env) : M Mem string :=
  fun s => (inr (randomUUID env (tick s)),
            mkHState (memory s) (disk s) (calls s) (S (tick s))).

(** [await fetch(...)]: the request is recorded, then answered. *)
Definition do_fetch (env : Env) (c : Call) : M Mem Response :=
  fun s => (fetch env (length (calls s)) c,
            mkHState (memory s) (disk s) (calls s ++ [c]) (tick s)).

Definition load_image (imageId : string) : M Mem (option string) :=
  fun s => (inr (ImageStore.loadImage imageId (disk s)), s).

Definition save_image (imageId data : string) : M Mem string :=
  fun s => let '(url, d) := ImageStore.saveImage imageId data (disk s) in
           (inr url, mkHState (memory s) d (calls s) (tick s)).

Definition clear_images (imageIds : list string) : M Mem unit :=
  fun s => (inr tt, mkHState (memory s)
                      (ImageStore.clearProjectImages imageIds (disk s))
                      (calls s) (tick s)).
End ops.
End HandlerMonad.

Import HandlerMonad.

Notation "'do' x <- m ; k" := (bind m (fun x => k))
  (at level 10, x name, m at level 100, k at level 200,
   format "'[v' 'do'  x  <-  m ; '/' k ']'").
Notation "m ;; k" := (bind m (fun _ => k))
  (at level 100, k at level 200, right associativity).

(** ** State containers ([lib/agent/index.ts]) *)

Inductive VideoStatus : Type := generating | ready | failed.

Definition status_name (s : VideoStatus) : string :=
  match s with
  | generating => "generating"
  | ready => "ready"
  | failed => "failed"
  end.

#[global] Instance VideoStatus_eq_dec : EqDecision VideoStatus.
Proof. solve_decision. Defined.

(** *** Analytics *)
Inductive EventType : Type :=
  | video_generated | image_generated | workflow_completed | preference_changed.

Record AnalyticsEvent : Type := {
  ev_type : EventType;
  ev_timestamp : Z;
  ev_data : option Json;
}.

Record Costs : Type := {
  totalVideos : Qc;
  totalImages : Qc;
  estimatedCost : Qc;
}.

Record Performance : Type := {
  averageVideoTime : Qc;
  averageImageTime : Qc;
  failureRate : Qc;
}.

Record AnalyticsMemory : Type := {
  events : list AnalyticsEvent;
  costs : Costs;
  performance : Performance;
}.

(** *** Preferences *)
Inductive PreferredAspect : Type := pref_16_9 | pref_9_16 | pref_1_1.

(** [negativePrompt] and [style] are the keys that
    [update-video-preferences] assigns; the interface declares
    [defaultNegativePrompt] and [preferredStyle]. *)
Record VideoSettings : Type := {
  vs_aspectRatio : PreferredAspect;
  vs_model : string;
  vs_defaultNegativePrompt : option string;
  vs_preferredStyle : option string;
  vs_negativePrompt : option string;
  vs_style : option string;
}.

Record ImageSettings : Type := {
  is_preferredModel : option string;
  is_defaultStyle : option string;
}.

Record WorkflowTemplate : Type := {
  wt_name : string;
  wt_steps : list Json;
}.

Record PreferencesMemory : Type := {
  videoSettings : VideoSettings;
  imageSettings : ImageSettings;
  workflowTemplates : list WorkflowTemplate;
}.

(** *** Media library *)
Record LibraryVideo : Type := {
  lv_id : string;
  lv_prompt : string;
  lv_url : option string;
  lv_status : VideoStatus;
  lv_operationName : option string;
  lv_createdAt : Z;
  lv_metadata : option Json;
}.

Record LibraryImage : Type := {
  li_id : string;
  li_prompt : string;
  li_url : option string;
  li_createdAt : Z;
}.

Record Collection : Type := {
  col_name : string;
  col_videoIds : list string;
  col_imageIds : list string;
}.

Record MediaLibraryMemory : Type := {
  lib_videos : list LibraryVideo;
  lib_images : list LibraryImage;
  lib_collections : list Collection;
}.

(** *** Video project *)
Inductive StepType : Type :=
  | step_generate_image | step_generate_video | step_wait | step_transform.

Inductive StepStatus : Type :=
  | step_pending | step_active | step_completed | step_failed.

Record WorkflowStep : Type := {
  ws_type : StepType;
  ws_params : Json;
  ws_status : StepStatus;
}.

Record Workflow : Type := {
  wf_id : string;
  wf_name : string;
  wf_steps : list WorkflowStep;
  wf_startedAt : Z;
}.

(** [v_operationName] holds whatever the provider answered as [name]. *)
Record Video : Type := {
  v_id : string;
  v_prompt : string;
  v_url : option string;
  v_status : VideoStatus;
  v_operationName : Json;
  v_createdAt : Z;
}.

Record Image : Type := {
  img_id : string;
  img_prompt : string;
  img_url : string;
  img_createdAt : Z;
}.

Record VideoProjectMemory : Type := {
  projectName : string;
  description : option string;
  activeWorkflows : list Workflow;
  sessionCount : Z;
  videos : list Video;
  images : list Image;
}.

(** The [create] functions of the four containers. *)
Definition create_analytics : AnalyticsMemory :=
  {| events := [];
     costs := {| totalVideos := 0; totalImages := 0; estimatedCost := 0 |};
     performance := {| averageVideoTime := 0; averageImageTime := 0;
                       failureRate := 0 |} |}.

Definition create_preferences : PreferencesMemory :=
  {| videoSettings :=
       {| vs_aspectRatio := pref_16_9; vs_model := "veo-3.0-generate-preview";
          vs_defaultNegativePrompt := None; vs_preferredStyle := None;
          vs_negativePrompt := None; vs_style := None |};
     imageSettings := {| is_preferredModel := None; is_defaultStyle := None |};
     workflowTemplates := [] |}.

Definition create_mediaLibrary : MediaLibraryMemory :=
  {| lib_videos := []; lib_images := []; lib_collections := [] |}.

Definition create_videoProject : VideoProjectMemory :=
  {| projectName := "Untitled Project"; description := None;
     activeWorkflows := []; sessionCount := 0; videos := []; images := [] |}.

(** ** Helpers shared by the handlers *)

(** The double-quote character, for messages that quote a name. *)
Definition dquote : string := String (Ascii.ascii_of_nat 34) EmptyString.

(** Truthiness of an optional string and of an optional boolean. *)
Definition truthy_string (o : option string) : bool :=
  match o with
  | Some s => negb (bool_decide (s = ""))
  | None => false
  end.

Definition truthy_bool (o : option bool) : bool := default false o.

Definition truthy_number (q : Qc) : bool := negb (bool_decide (q = 0%Qc)).

(** [const x = l.find(p); if (x) { mutate x }]: the first match changes. *)
Fixpoint update_first {A} (p : A → bool) (f : A → A) (l : list A) : list A :=
  match l with
  | [] => []
  | x :: rest => if p x then f x :: rest else x :: update_first p f rest
  end.

Definition success_field (b : bool) : string * Json := ("success", JBool b).

(** ** Actions of the analytics container *)
Module Analytics.

Inductive GenerationType : Type := gen_video | gen_image.

Record TrackParams : Type := {
  tg_type : GenerationType;
  tg_success : bool;
  tg_duration : option Qc;
}.

Definition event_data (p : TrackParams) : Json :=
  JObj [("success", JBool (tg_success p));
        ("duration", match tg_duration p with
                     | Some d => JNum d
                     | None => JUndefined
                     end)].

(** The memory after [track-generation], given the clock reading. *)
Definition track (p : TrackParams) (timestamp : Z) (mem : AnalyticsMemory)
  : AnalyticsMemory :=
  let eventType := match tg_type p with
                   | gen_video => video_generated
                   | gen_image => image_generated
                   end in
  let pushed := events mem ++ [{| ev_type := eventType;
                                  ev_timestamp := timestamp;
                                  ev_data := Some (event_data p) |}] in
  if tg_success p then
    match tg_type p with
    | gen_video =>
        let count := (totalVideos (costs mem) + 1)%Qc in
        let costs' := {| totalVideos := count;
                         totalImages := totalImages (costs mem);
                         estimatedCost := (estimatedCost (costs mem) + Qc_of_Z 50)%Qc |} in
        let avg := averageVideoTime (performance mem) in
        let performance' :=
          match tg_duration p with
          | Some duration =>
              if truthy_number duration
              then {| averageVideoTime := ((avg * (count - 1) + duration) / count)%Qc;
                      averageImageTime := averageImageTime (performance mem);
                      failureRate := failureRate (performance mem) |}
              else performance mem
          | None => performance mem
          end in
        {| events := pushed; costs := costs'; performance := performance' |}
    | gen_image =>
        {| events := pushed;
           costs := {| totalVideos := totalVideos (costs mem);
                       totalImages := (totalImages (costs mem) + 1)%Qc;
                       estimatedCost := (estimatedCost (costs mem) + Qc_of_Z 10)%Qc |};
           performance := performance mem |}
    end
  else {| events := pushed; costs := costs mem; performance := performance mem |}.

Definition track_generation (env : Env) (p : TrackParams) : M AnalyticsMemory Json :=
  do timestamp <- now env;
  do mem <- get_memory;
  set_memory (track p timestamp mem) ;;
  ret (JObj [("tracked", JBool true)]).

End Analytics.

(** ** Actions of the preferences container *)
Module Preferences.

Record UpdateParams : Type := {
  up_aspectRatio : option PreferredAspect;
  up_model : option string;
  up_negativePrompt : option string;
  up_style : option string;
}.

(** [Object.assign(ctx.memory.videoSettings, params)] *)
Definition assign (vs : VideoSettings) (p : UpdateParams) : VideoSettings :=
  {| vs_aspectRatio := default (vs_aspectRatio vs) (up_aspectRatio p);
     vs_model := default (vs_model vs) (up_model p);
     vs_defaultNegativePrompt := vs_defaultNegativePrompt vs;
     vs_preferredStyle := vs_preferredStyle vs;
     vs_negativePrompt := match up_negativePrompt p with
                          | Some s => Some s
                          | None => vs_negativePrompt vs
                          end;
     vs_style := match up_style p with
                 | Some s => Some s
                 | None => vs_style vs
                 end |}.

Definition aspect_name (a : PreferredAspect) : string :=
  match a with
  | pref_16_9 => "16:9"
  | pref_9_16 => "9:16"
  | pref_1_1 => "1:1"
  end.

Definition optional_field (k : string) (o : option string) : list (string * Json) :=
  match o with
  | Some s => [(k, JStr s)]
  | None => []
  end.

Definition settings_json (vs : VideoSettings) : Json :=
  JObj ([("aspectRatio", JStr (aspect_name (vs_aspectRatio vs)));
         ("model", JStr (vs_model vs))]
        ++ optional_field "defaultNegativePrompt" (vs_defaultNegativePrompt vs)
        ++ optional_field "preferredStyle" (vs_preferredStyle vs)
        ++ optional_field "negativePrompt" (vs_negativePrompt vs)
        ++ optional_field "style" (vs_style vs)).

Definition update_video_preferences (p : UpdateParams) : M PreferencesMemory Json :=
  do mem <- get_memory;
  let vs := assign (videoSettings mem) p in
  set_memory {| videoSettings := vs;
                imageSettings := imageSettings mem;
                workflowTemplates := workflowTemplates mem |} ;;
  ret (JObj [("updated", JBool true); ("preferences", settings_json vs)]).

Definition save_workflow_template (name : string) (steps : list Json)
  : M PreferencesMemory Json :=
  do mem <- get_memory;
  let templates := workflowTemplates mem ++ [{| wt_name := name; wt_steps := steps |}] in
  set_memory {| videoSettings := videoSettings mem;
                imageSettings := imageSettings mem;
                workflowTemplates := templates |} ;;
  ret (JObj [("saved", JBool true); ("templateCount", JS.of_nat (length templates))]).

End Preferences.

(** ** Actions of the media-library container *)
Module MediaLibrary.

Definition add_video (env : Env) (prompt operationName : string)
  : M MediaLibraryMemory Json :=
  do id <- uuid env;
  do createdAt <- now env;
  let video := {| lv_id := id; lv_prompt := prompt; lv_url := None;
                  lv_status := generating;
                  lv_operationName := Some operationName;
                  lv_createdAt := createdAt; lv_metadata := None |} in
  do mem <- get_memory;
  set_memory {| lib_videos := lib_videos mem ++ [video];
                lib_images := lib_images mem;
                lib_collections := lib_collections mem |} ;;
  ret (JObj [("videoId", JStr id)]).

Definition set_status (status : VideoStatus) (url : option string)
  (video : LibraryVideo) : LibraryVideo :=
  {| lv_id := lv_id video; lv_prompt := lv_prompt video;
     lv_url := if truthy_string url then url else lv_url video;
     lv_status := status;
     lv_operationName := lv_operationName video;
     lv_createdAt := lv_createdAt video; lv_metadata := lv_metadata video |}.

Definition update_video_status (videoId : string) (status : VideoStatus)
  (url : option string) : M MediaLibraryMemory Json :=
  do mem <- get_memory;
  let is_it := fun v => bool_decide (lv_id v = videoId) in
  set_memory {| lib_videos := update_first is_it (set_status status url) (lib_videos mem);
                lib_images := lib_images mem;
                lib_collections := lib_collections mem |} ;;
  ret (JObj [("updated", JBool (existsb is_it (lib_videos mem)))]).

Definition add_image (env : Env) (prompt url : string) : M MediaLibraryMemory Json :=
  do id <- uuid env;
  do createdAt <- now env;
  let image := {| li_id := id; li_prompt := prompt; li_url := Some url;
                  li_createdAt := createdAt |} in
  do mem <- get_memory;
  set_memory {| lib_videos := lib_videos mem;
                lib_images := lib_images mem ++ [image];
                lib_collections := lib_collections mem |} ;;
  ret (JObj [("imageId", JStr id)]).

End MediaLibrary.

(** ** Actions of the project container ([lib/agent/actions-fixed.ts]) *)
Module Actions.

Inductive VeoModel : Type :=
  | veo_3_0_generate_preview
  | veo_3_0_fast_generate_preview
  | veo_2_0_generate_001.

Definition model_name (m : VeoModel) : string :=
  match m with
  | veo_3_0_generate_preview => "veo-3.0-generate-preview"
  | veo_3_0_fast_generate_preview => "veo-3.0-fast-generate-preview"
  | veo_2_0_generate_001 => "veo-2.0-generate-001"
  end.

Inductive AspectRatio : Type := ar_16_9 | ar_9_16.

Definition aspect_name (a : AspectRatio) : string :=
  match a with
  | ar_16_9 => "16:9"
  | ar_9_16 => "9:16"
  end.

Inductive PersonGeneration : Type := allow_all | allow_adult | dont_allow.

Definition person_name (p : PersonGeneration) : string :=
  match p with
  | allow_all => "allow_all"
  | allow_adult => "allow_adult"
  | dont_allow => "dont_allow"
  end.

(** The parameters of [generate-veo-video] after schema validation: the
    defaults of [model], [aspectRatio] and [numberOfVideos] are filled in. *)
Record GenerateVideoParams : Type := {
  prompt : string;
  model : VeoModel;
  negativePrompt : option string;
  aspectRatio : AspectRatio;
  personGeneration : option PersonGeneration;
  numberOfVideos : Qc;
  useImageId : option string;
  useLatestImage : option bool;
  imageFile : option string;
}.

Definition failure (error message : string) : Json :=
  JObj [success_field false; ("error", JStr error); ("message", JStr message)].

Definition isVeo3 (p : GenerateVideoParams) : bool :=
  startsWith (model_name (model p)) "veo-3.0".

Definition isVeo2 (p : GenerateVideoParams) : bool :=
  bool_decide (model_name (model p) = "veo-2.0-generate-001").

Definition invalid_aspect_ratio : Json :=
  failure "INVALID_ASPECT_RATIO"
    "Veo 3 models only support 16:9 aspect ratio. Use Veo 2 for 9:16.".

Definition invalid_person_generation : Json :=
  failure "INVALID_PERSON_GENERATION"
    ("Veo 3 text-to-video only supports " +:+ dquote +:+ "allow_all" +:+ dquote
     +:+ " for person generation. Use " +:+ dquote +:+ "allow_adult" +:+ dquote
     +:+ " only with image input.").

Definition invalid_number_of_videos : Json :=
  failure "INVALID_NUMBER_OF_VIDEOS"
    "Only Veo 2 supports generating multiple videos. Veo 3 generates one video at a time.".

(** The three guards at the head of the handler, in source order. *)
Definition aspect_ratio_guard (p : GenerateVideoParams) : bool :=
  isVeo3 p && bool_decide (aspect_name (aspectRatio p) = "9:16").

Definition person_generation_guard (p : GenerateVideoParams) : bool :=
  isVeo3 p && negb (truthy_string (imageFile p))
  && negb (truthy_string (useImageId p)) && negb (truthy_bool (useLatestImage p))
  && match personGeneration p with
     | Some pg => negb (bool_decide (person_name pg = "allow_all"))
     | None => false
     end.

Definition number_of_videos_guard (p : GenerateVideoParams) : bool :=
  negb (isVeo2 p) && truthy_number (numberOfVideos p)
  && bool_decide (1 < numberOfVideos p)%Qc.

(** The form fields appended before the image is looked up. *)
Definition base_form (p : GenerateVideoParams) : list (string * string) :=
  [("prompt", prompt p);
   ("model", if bool_decide (model_name (model p) = "")
             then "veo-3.0-generate-preview" else model_name (model p))]
  ++ (if truthy_string (negativePrompt p)
      then [("negativePrompt", default "" (negativePrompt p))] else [])
  ++ (if bool_decide (aspect_name (aspectRatio p) = "") then []
      else [("aspectRatio", aspect_name (aspectRatio p))])
  ++ match personGeneration p with
     | Some pg => [("personGeneration", person_name pg)]
     | None => []
     end
  ++ (if isVeo2 p && truthy_number (numberOfVideos p)
      then [("numberOfVideos", JS.show_number (numberOfVideos p))] else []).

(** The form fields for the image, if one was found. *)
Definition image_form (imageData : option string) : list (string * string) :=
  if truthy_string imageData then
    let data := default "" imageData in
    if startsWith data "data:" then
      let parts := split "," data in
      let meta := default "" (head parts) in
      let b64 := parts !! 1%nat in
      let first := remove_first "data:" (default "" (head (split ";" meta))) in
      let mime := if bool_decide (first = "") then "image/png" else first in
      [("imageBase64", default "undefined" b64); ("imageMimeType", mime)]
    else [("imageBase64", data); ("imageMimeType", "image/png")]
  else [].

Definition new_video (id prompt : string) (operationName : Json) (createdAt : Z)
  : Video :=
  {| v_id := id; v_prompt := prompt; v_url := None; v_status := generating;
     v_operationName := operationName; v_createdAt := createdAt |}.

Definition push_video (v : Video) (mem : VideoProjectMemory) : VideoProjectMemory :=
  {| projectName := projectName mem; description := description mem;
     activeWorkflows := activeWorkflows mem; sessionCount := sessionCount mem;
     videos := videos mem ++ [v]; images := images mem |}.

Definition push_image (i : Image) (mem : VideoProjectMemory) : VideoProjectMemory :=
  {| projectName := projectName mem; description := description mem;
     activeWorkflows := activeWorkflows mem; sessionCount := sessionCount mem;
     videos := videos mem; images := images mem ++ [i] |}.

(** The guards together: the failure the handler returns before it does
    anything else, if a guard fires. *)
Definition validation (p : GenerateVideoParams) : option Json :=
  if aspect_ratio_guard p then Some invalid_aspect_ratio
  else if person_generation_guard p then Some invalid_person_generation
  else if number_of_videos_guard p then Some invalid_number_of_videos
  else None.

(** The handler past its guards: the image is looked up, the provider is
    called and the new video is recorded. *)
Definition startGeneration (env : Env) (p : GenerateVideoParams)
  : M VideoProjectMemory Json :=
  let imageData0 := if truthy_string (imageFile p) then imageFile p else None in
  do imageData1 <-
    (if truthy_string (useImageId p)
     then load_image (default "" (useImageId p))
     else ret imageData0);
  do mem <- get_memory;
  do imageData <-
    (if truthy_bool (useLatestImage p) then
       match last (images mem) with
       | Some latestImage =>
           if bool_decide (img_id latestImage = "") then ret imageData1
           else load_image (img_id latestImage)
       | None => ret imageData1
       end
     else ret imageData1);
  do response <-
    do_fetch env (PostForm (baseUrl env +:+ "/api/veo/generate")
                    (base_form p ++ image_form imageData));
  if negb (ok response)
  then throw (ErrorObj ("Failed to start video generation: "
                        +:+ statusText response))
  else
    do result <- lift (json response);
    do operationName <- lift (JS.get "name" result);
    do videoId <- uuid env;
    do createdAt <- now env;
    do mem' <- get_memory;
    set_memory (push_video (new_video videoId (prompt p) operationName createdAt)
                  mem') ;;
    ret (JObj [success_field true;
               ("operationName", operationName);
               ("videoId", JStr videoId);
               ("message", JStr ("Video generation started. Operation: "
                                 +:+ JS.to_string operationName))]).

Definition generateVideo (env : Env) (p : GenerateVideoParams)
  : M VideoProjectMemory Json :=
  try_catch
    (do startTime <- now env;
     match validation p with
     | Some rejected => ret rejected
     | None => startGeneration env p
     end)
    (fun error =>
       ret (failure (error_message error) "Failed to start video generation")).

Definition has_operation (operationName : string) (v : Video) : bool :=
  match v_operationName v with
  | JStr s => bool_decide (s = operationName)
  | _ => false
  end.

Definition mark_ready (url : string) (v : Video) : Video :=
  {| v_id := v_id v; v_prompt := v_prompt v; v_url := Some url;
     v_status := ready; v_operationName := v_operationName v;
     v_createdAt := v_createdAt v |}.

Definition set_videos (vs : list Video) (mem : VideoProjectMemory)
  : VideoProjectMemory :=
  {| projectName := projectName mem; description := description mem;
     activeWorkflows := activeWorkflows mem; sessionCount := sessionCount mem;
     videos := vs; images := images mem |}.

Definition generation_failed : Json :=
  JObj [success_field false; ("status", JStr "failed");
        ("message", JStr "Video generation failed")].

Definition checkVideoStatus (env : Env) (operationName : string)
  : M VideoProjectMemory Json :=
  try_catch
    (do response <-
       do_fetch env (PostJson (baseUrl env +:+ "/api/veo/operation")
                       (JObj [("name", JStr operationName)]));
     if negb (ok response)
     then throw (ErrorObj ("Failed to check operation status: "
                           +:+ statusText response))
     else
       do operation <- lift (json response);
       do done <- lift (JS.get "done" operation);
       if JS.truthy done then
         let fileUri :=
           JS.opt_get "uri"
             (JS.opt_get "video"
                (JS.opt_first
                   (JS.opt_get "generatedVideos" (JS.opt_get "response" operation)))) in
         if JS.truthy fileUri then
           do downloadResponse <-
             do_fetch env (PostJson (baseUrl env +:+ "/api/veo/download")
                             (JObj [("uri", fileUri)]));
           if ok downloadResponse then
             do url <- lift (blobUrl downloadResponse);
             do mem <- get_memory;
             set_memory (set_videos
                           (update_first (has_operation operationName)
                              (mark_ready url) (videos mem)) mem) ;;
             ret (JObj [success_field true; ("status", JStr "ready");
                        ("url", JStr url); ("message", JStr "Video is ready!")])
           else ret generation_failed
         else ret generation_failed
       else
         let progress :=
           JS.or_else (JS.opt_get "progressPercent" (JS.opt_get "metadata" operation))
             (JNum 0) in
         ret (JObj [success_field true; ("status", JStr "processing");
                    ("progress", progress);
                    ("message", JStr ("Video is still processing... "
                                      +:+ JS.to_string progress +:+ "% complete"))]))
    (fun error =>
       ret (failure (error_message error) "Failed to check video status")).

(** *** [generate-imagen-image] *)
Inductive ImageAspect : Type := ia_1_1 | ia_3_4 | ia_4_3 | ia_9_16 | ia_16_9.

Definition image_aspect_name (a : ImageAspect) : string :=
  match a with
  | ia_1_1 => "1:1"
  | ia_3_4 => "3:4"
  | ia_4_3 => "4:3"
  | ia_9_16 => "9:16"
  | ia_16_9 => "16:9"
  end.

Record GenerateImageParams : Type := {
  gi_prompt : string;
  gi_numberOfImages : Qc;
  gi_aspectRatio : ImageAspect;
}.

(** One image of the response: written to disk, then recorded in memory. *)
Definition store_image (env : Env) (prompt : string) (mimeType imageBytes : Json)
  : M VideoProjectMemory Image :=
  let dataUrl := "data:" +:+ JS.to_string (JS.or_else mimeType (JStr "image/png"))
                 +:+ ";base64," +:+ JS.to_string imageBytes in
  do imageId <- uuid env;
  do imageUrl <- save_image imageId dataUrl;
  do createdAt <- now env;
  let imageMetadata := {| img_id := imageId; img_prompt := prompt;
                          img_url := imageUrl; img_createdAt := createdAt |} in
  do mem <- get_memory;
  set_memory (push_image imageMetadata mem) ;;
  ret imageMetadata.

(** [for (const img of result.images) if (img?.imageBytes) { ... }] *)
Fixpoint store_images (env : Env) (prompt : string) (imgs : list Json)
  : M VideoProjectMemory (list Image) :=
  match imgs with
  | [] => ret []
  | img :: rest =>
      if JS.truthy (JS.opt_get "imageBytes" img) then
        do stored <- store_image env prompt (JS.opt_get "mimeType" img)
                       (JS.opt_get "imageBytes" img);
        do others <- store_images env prompt rest;
        ret (stored :: others)
      else store_images env prompt rest
  end.

Definition image_json (i : Image) : Json :=
  JObj [("id", JStr (img_id i)); ("prompt", JStr (img_prompt i));
        ("url", JStr (img_url i)); ("createdAt", JNum (Qc_of_Z (img_createdAt i)))].

Definition generateImage (env : Env) (p : GenerateImageParams)
  : M VideoProjectMemory Json :=
  try_catch
    (do startTime <- now env;
     do response <-
       do_fetch env (PostJson (baseUrl env +:+ "/api/imagen/generate")
                       (JObj [("prompt", JStr (gi_prompt p));
                              ("numberOfImages", JNum (gi_numberOfImages p));
                              ("aspectRatio",
                               JStr (image_aspect_name (gi_aspectRatio p)))]));
     if negb (ok response)
     then throw (ErrorObj ("Failed to generate image: " +:+ statusText response))
     else
       do result <- lift (json response);
       do generatedImages <-
         match JS.opt_get "images" result with
         | JArr imgs => store_images env (gi_prompt p) imgs
         | _ =>
             let image := JS.opt_get "image" result in
             if JS.truthy (JS.opt_get "imageBytes" image) then
               do stored <- store_image env (gi_prompt p)
                              (JS.opt_get "mimeType" image)
                              (JS.opt_get "imageBytes" image);
               ret [stored]
             else ret []
         end;
       match generatedImages with
       | [] => throw (ErrorObj "No image data in response")
       | _ :: _ =>
           let n := length generatedImages in
           ret (JObj [success_field true;
                      ("imageIds", JArr (map (fun i => JStr (img_id i)) generatedImages));
                      ("images", JArr (map image_json generatedImages));
                      ("count", JS.of_nat n);
                      ("message",
                       JStr ("Generated " +:+ pretty n +:+ " image"
                             +:+ (if bool_decide (1 < n)%nat then "s" else "")
                             +:+ " successfully"))])
       end)
    (fun error => ret (failure (error_message error) "Failed to generate images")).

(** *** [list-media] *)
Inductive MediaType : Type := mt_all | mt_videos | mt_images.
Inductive StatusFilter : Type := sf_all | sf_status (s : VideoStatus).

(** [new Date(t).toLocaleString()]: the locale rendering is not modelled,
    the digits of the time stamp stand for it. *)
Definition toLocaleString (t : Z) : string := pretty t.

Definition listed_video (v : Video) : Json :=
  JObj [("id", JStr (v_id v)); ("prompt", JStr (v_prompt v));
        ("status", JStr (status_name (v_status v)));
        ("createdAt", JStr (toLocaleString (v_createdAt v)));
        ("url", JS.of_option_string (v_url v))].

(** [hasData: !!i.data]: the stored records have no [data] key. *)
Definition listed_image (i : Image) : Json :=
  JObj [("id", JStr (img_id i)); ("prompt", JStr (img_prompt i));
        ("createdAt", JStr (toLocaleString (img_createdAt i)));
        ("hasData", JBool false)].

Definition listMedia (type : MediaType) (status : StatusFilter)
  : M VideoProjectMemory Json :=
  do mem <- get_memory;
  let videos0 := videos mem in
  let images0 := images mem in
  let videos1 :=
    match status, type with
    | sf_all, _ => videos0
    | sf_status _, mt_images => videos0
    | sf_status s, _ => filter (fun v => v_status v = s) videos0
    end in
  let video_part :=
    match type with
    | mt_all | mt_videos => [("videos", JArr (map listed_video videos1))]
    | mt_images => []
    end in
  let image_part :=
    match type with
    | mt_all | mt_images => [("images", JArr (map listed_image images0))]
    | mt_videos => []
    end in
  ret (JObj ([success_field true] ++ video_part ++ image_part
             ++ [("summary", JStr ("Found " +:+ pretty (length videos1)
                                   +:+ " videos and " +:+ pretty (length images0)
                                   +:+ " images"))])).

(** *** [clear-project] *)
Definition cleared (mem : VideoProjectMemory) : VideoProjectMemory :=
  {| projectName := projectName mem; description := description mem;
     activeWorkflows := []; sessionCount := sessionCount mem;
     videos := []; images := [] |}.

(** The refusal without confirmation. *)
Definition clear_refused : Json :=
  JObj [success_field false; ("message", JStr "Please confirm to clear the project")].

(** [ctx.memory] is the project container's memory: it has no
    [collections] key, so that assignment of the handler does nothing. *)
Definition clearProject (confirm : bool) : M VideoProjectMemory Json :=
  if negb confirm then ret clear_refused
  else
    do mem <- get_memory;
    let imageIds :=
      filter (fun id => id ≠ "") (map img_id (images mem)) in
    clear_images imageIds ;;
    set_memory (cleared mem) ;;
    ret (JObj [success_field true; ("message", JStr "Project cleared successfully")]).

(** *** [start-workflow] *)
Definition step_type_name (t : StepType) : string :=
  match t with
  | step_generate_image => "generate-image"
  | step_generate_video => "generate-video"
  | step_wait => "wait"
  | step_transform => "transform"
  end.

Definition startWorkflow (env : Env) (name : string) (steps : list (StepType * Json))
  : M VideoProjectMemory Json :=
  do id <- uuid env;
  let steps' := map (fun s => {| ws_type := fst s; ws_params := snd s;
                                 ws_status := step_pending |}) steps in
  do startedAt <- now env;
  let workflow := {| wf_id := id; wf_name := name; wf_steps := steps';
                     wf_startedAt := startedAt |} in
  do mem <- get_memory;
  set_memory {| projectName := projectName mem; description := description mem;
                activeWorkflows := activeWorkflows mem ++ [workflow];
                sessionCount := sessionCount mem;
                videos := videos mem; images := images mem |} ;;
  ret (JObj [("workflowId", JStr id);
             ("message", JStr ("Workflow " +:+ dquote +:+ name +:+ dquote
                               +:+ " created with " +:+ pretty (length steps)
                               +:+ " steps. Execute steps individually or use the workflow builder."))]).

End Actions.

(** ** The composed containers and the dispatch surface

    Each container has a memory of its own ([create] of each context, and
    the separate [getContext] of each in [api/agent/memory/route.ts]); an
    action runs on the memory of the container that declares it.  What the
    framework does around a call (schema validation, [onRun]) is outside. *)

Record World : Type := {
  project : VideoProjectMemory;
  analytics : AnalyticsMemory;
  preferences : PreferencesMemory;
  mediaLibrary : MediaLibraryMemory;
  files : gmap string (list byte);
}.

Inductive Action : Type :=
  | GenerateVeoVideo (p : Actions.GenerateVideoParams)
  | CheckVideoStatus (operationName : string)
  | GenerateImagenImage (p : Actions.GenerateImageParams)
  | ListMedia (type : Actions.MediaType) (status : Actions.StatusFilter)
  | ClearProject (confirm : bool)
  | StartWorkflow (name : string) (steps : list (StepType * Json))
  | TrackGeneration (p : Analytics.TrackParams)
  | UpdateVideoPreferences (p : Preferences.UpdateParams)
  | SaveWorkflowTemplate (name : string) (steps : list Json)
  | AddVideo (prompt operationName : string)
  | UpdateVideoStatus (videoId : string) (status : VideoStatus) (url : option string)
  | AddImage (prompt url : string).

Record Outcome : Type := {
  result : Exn + Json;
  world : World;
  requests : list Call;
}.

(** Runs a handler on the memory of its own container. *)
Definition run_in {Mem} (view : World → Mem) (update : Mem → World → World)
  (handler : M Mem Json) (w : World) : Outcome :=
  let '(r, s) := handler (mkHState (view w) (files w) [] 0%nat) in
  let w' := update (memory s) w in
  {| result := r;
     world := {| project := project w'; analytics := analytics w';
                 preferences := preferences w'; mediaLibrary := mediaLibrary w';
                 files := disk s |};
     requests := calls s |}.

Definition with_project (m : VideoProjectMemory) (w : World) : World :=
  {| project := m; analytics := analytics w; preferences := preferences w;
     mediaLibrary := mediaLibrary w; files := files w |}.

Definition with_analytics (m : AnalyticsMemory) (w : World) : World :=
  {| project := project w; analytics := m; preferences := preferences w;
     mediaLibrary := mediaLibrary w; files := files w |}.

Definition with_preferences (m : PreferencesMemory) (w : World) : World :=
  {| project := project w; analytics := analytics w; preferences := m;
     mediaLibrary := mediaLibrary w; files := files w |}.

Definition with_mediaLibrary (m : MediaLibraryMemory) (w : World) : World :=
  {| project := project w; analytics := analytics w; preferences := preferences w;
     mediaLibrary := m; files := files w |}.

Definition dispatch (env : Env) (a : Action) (w : World) : Outcome :=
  match a with
  | GenerateVeoVideo p => run_in project with_project (Actions.generateVideo env p) w
  | CheckVideoStatus op => run_in project with_project (Actions.checkVideoStatus env op) w
  | GenerateImagenImage p => run_in project with_project (Actions.generateImage env p) w
  | ListMedia t s => run_in project with_project (Actions.listMedia t s) w
  | ClearProject c => run_in project with_project (Actions.clearProject c) w
  | StartWorkflow n st => run_in project with_project (Actions.startWorkflow env n st) w
  | TrackGeneration p => run_in analytics with_analytics (Analytics.track_generation env p) w
  | UpdateVideoPreferences p =>
      run_in preferences with_preferences (Preferences.update_video_preferences p) w
  | SaveWorkflowTemplate n st =>
      run_in preferences with_preferences (Preferences.save_workflow_template n st) w
  | AddVideo pr op => run_in mediaLibrary with_mediaLibrary (MediaLibrary.add_video env pr op) w
  | UpdateVideoStatus id st url =>
      run_in mediaLibrary with_mediaLibrary (MediaLibrary.update_video_status id st url) w
  | AddImage pr url => run_in mediaLibrary with_mediaLibrary (MediaLibrary.add_image env pr url) w
  end.

(** A sequence of actions, each with the environment it meets. *)
Fixpoint run (steps : list (Env * Action)) (w : World) : World :=
  match steps with
  | [] => w
  | (env, a) :: rest => run rest (world (dispatch env a w))
  end.

Definition create_world : World :=
  {| project := create_videoProject; analytics := create_analytics;
     preferences := create_preferences; mediaLibrary := create_mediaLibrary;
     files := ∅ |}.

(** A field of a handler's result object. *)
Definition field (k : string) (r : Exn + Json) : option Json :=
  match r with
  | inr (JObj fields) => JS.assoc k fields
  | _ => None
  end.

(** A [track-generation] call for a successful video of the given duration. *)
Definition video_tracked (duration : Qc) : Action :=
  TrackGeneration {| Analytics.tg_type := Analytics.gen_video;
                     Analytics.tg_success := true;
                     Analytics.tg_duration := Some duration |}.



(** An environment with no network: every request is refused. *)
Definition offline : Env :=
  {| NEXT_PUBLIC_URL := None;
     fetch := fun _ _ => inl (ErrorObj "fetch failed");
     Date_now := fun n => Z.of_nat n;
     randomUUID := fun n => "uuid-" +:+ pretty n |}.

(** An environment whose every request is answered [200 OK] with the given
    body. *)
Definition answering (body : Json) : Env :=
  {| NEXT_PUBLIC_URL := None;
     fetch := fun _ _ => inr {| ok := true; statusText := "OK"; json := inr body;
                                blobUrl := inr "blob:video" |};
     Date_now := fun n => Z.of_nat n;
     randomUUID := fun n => "uuid-" +:+ pretty n |}.

(** The two shapes a result with a [success] field takes in the handlers
    that catch: a failure with [error] and [message], or a success object. *)
Definition well_shaped (j : Json) : Prop :=
  (∃ error message, j = Actions.failure error message)
  ∨ (∃ fields, j = JObj (success_field true :: fields)).

(** A text-only request for the given model, every option at its default. *)
Definition text_request (m : Actions.VeoModel) : Actions.GenerateVideoParams :=
  {| Actions.prompt := "a sunset over the sea"; Actions.model := m;
     Actions.negativePrompt := None; Actions.aspectRatio := Actions.ar_16_9;
     Actions.personGeneration := None; Actions.numberOfVideos := 1%Qc;
     Actions.useImageId := None; Actions.useLatestImage := None;
     Actions.imageFile := None |}.

(** The Veo 3 family. *)
Definition veo3_family (m : Actions.VeoModel) : Prop :=
  m = Actions.veo_3_0_generate_preview ∨ m = Actions.veo_3_0_fast_generate_preview.

(** How a video record may differ between two moments: it is the same
    record, and its status is as it was or has become [ready]. *)
Definition status_step (v v' : Video) : Prop :=
  v_id v' = v_id v ∧ (v_status v' = v_status v ∨ v_status v' = ready).

(** A world with one stored image, one video still [generating] in the
    project, and a [ready] record of it in the media library. *)
Definition sample_image : Image :=
  {| img_id := "img-1"; img_prompt := "a lighthouse";
     img_url := "/generated-images/img-1.png"; img_createdAt := 1700000000000 |}.

Definition sample_video (s : VideoStatus) : Video :=
  {| v_id := "vid-1"; v_prompt := "a lighthouse at dusk"; v_url := None;
     v_status := s; v_operationName := JStr "operations/1";
     v_createdAt := 1700000000000 |}.

Definition sample_library_video (s : VideoStatus) : LibraryVideo :=
  {| lv_id := "vid-1"; lv_prompt := "a lighthouse at dusk"; lv_url := None;
     lv_status := s; lv_operationName := Some "operations/1";
     lv_createdAt := 1700000000000; lv_metadata := None |}.

Definition sample_world : World :=
  {| project := {| projectName := "Untitled Project"; description := None;
                   activeWorkflows := []; sessionCount := 1;
                   videos := [sample_video generating];
                   images := [sample_image] |};
     analytics := create_analytics;
     preferences := create_preferences;
     mediaLibrary := {| lib_videos := [sample_library_video ready];
                        lib_images := [];
                        lib_collections := [] |};
     files := {[ ImageStore.image_path "img-1" := [Byte.x89; Byte.x50] ]} |}.

(** ** Notions used in the statements below *)



(** A failure result carries a message, and an error too unless it is one
    of the two results that have none. *)
Definition failure_carries_message (j : Json) : Prop :=
  field "success" (inr j) = Some (JBool false) →
  (∃ message, field "message" (inr j) = Some (JStr message))
  ∧ ((∃ error, field "error" (inr j) = Some (JStr error))
     ∨ j = Actions.generation_failed ∨ j = Actions.clear_refused).

(** The videos among which a record is followed: same position, same id,
    status as before or [ready]. *)
Definition follows (before after : list Video) : Prop :=
  ∀ i v, before !! i = Some v → ∃ v', after !! i = Some v' ∧ status_step v v'.

(** ** Notions used in the further properties *)


(** Whether a step is a successful [track-generation] call of the type. *)
Definition tracks_success (type : Analytics.GenerationType) (step : Env * Action)
  : bool :=
  match step.2 with
  | TrackGeneration p =>
      Analytics.tg_success p
      && match type, Analytics.tg_type p with
         | Analytics.gen_video, Analytics.gen_video => true
         | Analytics.gen_image, Analytics.gen_image => true
         | _, _ => false
         end
  | _ => false
  end.

Definition count_success (type : Analytics.GenerationType)
  (steps : list (Env * Action)) : Qc :=
  Qc_of_Z (Z.of_nat (length (filter (λ step, tracks_success type step = true) steps))).

(** The container an action is declared on. *)
Inductive Container : Type :=
  | ProjectContainer | AnalyticsContainer | PreferencesContainer | LibraryContainer.

Definition owner (a : Action) : Container :=
  match a with
  | GenerateVeoVideo _ | CheckVideoStatus _ | GenerateImagenImage _
  | ListMedia _ _ | ClearProject _ | StartWorkflow _ _ => ProjectContainer
  | TrackGeneration _ => AnalyticsContainer
  | UpdateVideoPreferences _ | SaveWorkflowTemplate _ _ => PreferencesContainer
  | AddVideo _ _ | UpdateVideoStatus _ _ _ | AddImage _ _ => LibraryContainer
  end.


(** The cost invariant of the analytics aggregates: 50 cents a video,
    10 cents an image. *)
Definition cost_consistent (mem : AnalyticsMemory) : Prop :=
  estimatedCost (costs mem)
  = (Qc_of_Z 50 * totalVideos (costs mem) + Qc_of_Z 10 * totalImages (costs mem))%Qc.

(** The template that a step saves, if it is a [save-workflow-template]
    call. *)
Definition saved_template (step : Env * Action) : option WorkflowTemplate :=
  match step.2 with
  | SaveWorkflowTemplate name steps => Some {| wt_name := name; wt_steps := steps |}
  | _ => None
  end.



(** The image [generate-veo-video] ends up with, by precedence: the latest
    generated image when asked for and there is one with an id, else the
    image named by [useImageId] (absent if it cannot be loaded), else the
    uploaded [imageFile]. *)
Definition chosen_image (p : Actions.GenerateVideoParams) (mem : VideoProjectMemory)
  (disk : gmap string (list byte)) : option string :=
  let uploaded := if truthy_string (Actions.imageFile p)
                  then Actions.imageFile p else None in
  let byId := if truthy_string (Actions.useImageId p)
              then ImageStore.loadImage (default "" (Actions.useImageId p)) disk
              else uploaded in
  if truthy_bool (Actions.useLatestImage p) then
    match last (images mem) with
    | Some latestImage =>
        if bool_decide (img_id latestImage = "") then byId
        else ImageStore.loadImage (img_id latestImage) disk
    | None => byId
    end
  else byId.

(** The URL a request goes to. *)
Definition call_url (c : Call) : string :=
  match c with
  | PostForm url _ => url
  | PostJson url _ => url
  end.

(** The result of [check-video-status] for a finished video. *)
Definition ready_result (url : string) : Json :=
  JObj [success_field true; ("status", JStr "ready"); ("url", JStr url);
        ("message", JStr "Video is ready!")].

(** The project memory with further images at the end of its list. *)
Definition add_images (stored : list Image) (mem : VideoProjectMemory)
  : VideoProjectMemory :=
  {| projectName := projectName mem; description := description mem;
     activeWorkflows := activeWorkflows mem; sessionCount := sessionCount mem;
     videos := videos mem; images := images mem ++ stored |}.

(** What holds of an image that [generate-imagen-image] stored: it carries
    the prompt, its URL is the public path of its file, and the file is on
    the disk. *)
Definition stored_on (prompt : string) (disk : gmap string (list byte))
  (i : Image) : Prop :=
  img_prompt i = prompt
  ∧ img_url i = "/generated-images/" +:+ img_id i +:+ ".png"
  ∧ is_Some (ImageStore.loadImage (img_id i) disk).

(** The elements of the provider's answer that carry image bytes. *)
Definition with_bytes (imgs : list Json) : list Json :=
  filter (λ img, JS.truthy (JS.opt_get "imageBytes" img) = true) imgs.


(** The workflow that a step records, if it is a [start-workflow] call:
    every step [pending]. *)
Definition started_workflow (step : Env * Action) : option Workflow :=
  match step.2 with
  | StartWorkflow name steps =>
      Some {| wf_id := randomUUID step.1 0; wf_name := name;
              wf_steps := map (λ s, {| ws_type := s.1; ws_params := s.2;
                                       ws_status := step_pending |}) steps;
              wf_startedAt := Date_now step.1 1 |}
  | _ => None
  end.

Definition all_pending (mem : VideoProjectMemory) : Prop :=
  Forall (λ wf, Forall (λ st, ws_status st = step_pending) (wf_steps wf))
    (activeWorkflows mem).

(** The routes of the application that the handlers call. *)
Definition own_routes : list string :=
  ["/api/veo/generate"; "/api/veo/operation"; "/api/veo/download";
   "/api/imagen/generate"].

(** ** The image route ([app/api/imagen/generate/route.ts])

    The route answers with a status and a JSON body.  The provider's SDK
    is a function from the call's argument to its answer, which may
    throw. *)
Module ImagenRoute.

(** [JSON.parse(JSON.stringify(v))] for a value inside a body: a key whose
    value is [undefined] is dropped, an [undefined] array element becomes
    [null]. *)
Fixpoint serialize (j : Json) : Json :=
  match j with
  | JArr l =>
      JArr (map (λ x, match x with
                      | JUndefined => JNull
                      | _ => serialize x
                      end) l)
  | JObj fields =>
      JObj ((fix kept (fs : list (string * Json)) : list (string * Json) :=
               match fs with
               | [] => []
               | (k, v) :: rest =>
                   match v with
                   | JUndefined => kept rest
                   | _ => (k, serialize v) :: kept rest
                   end
               end) fields)
  | _ => j
  end.


(** [img => ({ imageBytes: img.image?.imageBytes,
               mimeType: img.image?.mimeType || "image/png" })] *)
Definition project_image (img : Json) : Exn + Json :=
  match JS.get "image" img with
  | inl e => inl e
  | inr image =>
      inr (JObj [("imageBytes", JS.opt_get "imageBytes" image);
                 ("mimeType", JS.or_else (JS.opt_get "mimeType" image)
                                (JStr "image/png"))])
  end.

Fixpoint project_images (imgs : list Json) : Exn + list Json :=
  match imgs with
  | [] => inr []
  | img :: rest =>
      match project_image img with
      | inl e => inl e
      | inr first =>
          match project_images rest with
          | inl e => inl e
          | inr others => inr (first :: others)
          end
      end
  end.

Definition server_error : nat * Json :=
  (500%nat, JObj [("error", JStr "Failed to generate image")]).

(** [POST]: [request] is the outcome of [req.json()]. *)
Definition POST (generateImages : Json → Exn + Json) (request : Exn + Json)
  : nat * Json :=
  match request with
  | inl _ => server_error
  | inr body =>
      let prompt := JS.or_else (JS.opt_get "prompt" body) (JStr "") in
      let model := JS.or_else (JS.opt_get "model" body)
                     (JStr "imagen-4.0-fast-generate-001") in
      let numberOfImages := JS.or_else (JS.opt_get "numberOfImages" body)
                              (JNum 1) in
      let aspectRatio := JS.or_else (JS.opt_get "aspectRatio" body) (JStr "1:1") in
      if negb (JS.truthy prompt)
      then (400%nat, JObj [("error", JStr "Missing prompt")])
      else
        match generateImages
                (JObj [("model", model); ("prompt", prompt);
                       ("config", JObj [("aspectRatio", aspectRatio);
                                        ("numberOfImages", numberOfImages)])]) with
        | inl _ => server_error
        | inr resp =>
            match JS.get "generatedImages" resp with
            | inl _ => server_error
            | inr (JArr generated) =>
                match project_images generated with
                | inl _ => server_error
                | inr projected =>
                    let images :=
                      filter (λ img, JS.truthy (JS.opt_get "imageBytes" img) = true)
                        projected in
                    match images with
                    | [] => (500%nat, JObj [("error", JStr "No images returned")])
                    | first :: _ =>
                        (200%nat, JObj [("images", JArr images); ("image", first)])
                    end
                end
            | inr (JUndefined | JNull) =>
                (500%nat, JObj [("error", JStr "No images returned")])
            | inr _ => server_error
            end
        end
  end.

End ImagenRoute.


(** A provider that returns two images, the second without media type. *)
Definition two_images (_ : Json) : Exn + Json :=
  inr (JObj [("generatedImages",
              JArr [JObj [("image", JObj [("imageBytes", JStr "TWFu");
                                          ("mimeType", JStr "image/png")])];
                    JObj [("image", JObj [("imageBytes", JStr "TWE=")])]])]).

(** * Properties *)

(** ** The handlers on concrete inputs *)
Module Examples.

Example encode_Man : Base64.base64_encode [Byte.x4d; Byte.x61; Byte.x6e] = "TWFu".
Proof. reflexivity. Qed.

Example encode_padded : Base64.base64_encode [Byte.x4d; Byte.x61] = "TWE=".
Proof. reflexivity. Qed.

Example decode_lenient :
  Base64.base64_decode "T W:F,u" = [Byte.x4d; Byte.x61; Byte.x6e].
Proof. reflexivity. Qed.

Example prefix_png :
  ImageStore.match_data_image_prefix "data:image/png;base64,TWFu" = Some "TWFu".
Proof. reflexivity. Qed.

Example prefix_svg :
  ImageStore.match_data_image_prefix "data:image/svg+xml;base64,TWFu" = None.
Proof. reflexivity. Qed.

Example split_commas : split "," "a,b,,c" = ["a"; "b"; ""; "c"].
Proof. reflexivity. Qed.

(** A Veo 2 request that the provider accepts: one request goes out and one
    video, in state [generating], joins the project. *)
Example video_started :
  let outcome :=
    dispatch (answering (JObj [("name", JStr "operations/2")]))
      (GenerateVeoVideo (text_request Actions.veo_2_0_generate_001)) sample_world in
  field "success" (result outcome) = Some (JBool true)
  ∧ field "operationName" (result outcome) = Some (JStr "operations/2")
  ∧ v_status <$> videos (project (world outcome)) = [generating; generating]
  ∧ length (requests outcome) = 1%nat.
Proof. by vm_compute. Qed.

(** The provider is unreachable: the exception is caught. *)
Example video_offline :
  result (dispatch offline
            (GenerateVeoVideo (text_request Actions.veo_3_0_generate_preview))
            sample_world)
  = inr (Actions.failure "fetch failed" "Failed to start video generation").
Proof. by vm_compute. Qed.

(** The poll that finds the video finished marks it [ready]. *)
Example status_ready :
  let body :=
    JObj [("done", JBool true);
          ("response",
           JObj [("generatedVideos",
                  JArr [JObj [("video", JObj [("uri", JStr "files/1")])]])])] in
  let outcome := dispatch (answering body) (CheckVideoStatus "operations/1")
                   sample_world in
  field "status" (result outcome) = Some (JStr "ready")
  ∧ v_status <$> videos (project (world outcome)) = [ready]
  ∧ v_url <$> videos (project (world outcome)) = [Some "blob:video"].
Proof. by vm_compute. Qed.

(** Two images in the answer: two files, two records, [count: 2]. *)
Example two_images :
  let body := JObj [("images",
                     JArr [JObj [("imageBytes", JStr "TWFu"); ("mimeType", JStr "image/png")];
                           JObj [("imageBytes", JStr "TWE=")]])] in
  let p := {| Actions.gi_prompt := "sunset"; Actions.gi_numberOfImages := Qc_of_Z 2;
              Actions.gi_aspectRatio := Actions.ia_1_1 |} in
  let outcome := dispatch (answering body) (GenerateImagenImage p) create_world in
  field "count" (result outcome) = Some (JS.of_nat 2)
  ∧ img_url <$> images (project (world outcome))
    = ["/generated-images/uuid-1.png"; "/generated-images/uuid-3.png"]
  ∧ files (world outcome) !! ImageStore.image_path "uuid-1"
    = Some [Byte.x4d; Byte.x61; Byte.x6e]
  ∧ files (world outcome) !! ImageStore.image_path "uuid-3"
    = Some [Byte.x4d; Byte.x61].
Proof. by vm_compute. Qed.

End Examples.

(** ** Base64 round trip *)
Module Base64Facts.
Import Base64.





Lemma byte_to_N_bound (b : byte) : (Byte.to_N b < 256)%N.
Proof. by destruct b. Qed.

Lemma byte_of_N_to_N (b : byte) : byte_of_N (Byte.to_N b) = b.
Proof.
  unfold byte_of_N. rewrite N.mod_small by apply byte_to_N_bound.
  by rewrite Byte.of_to_N.
Qed.








End Base64Facts.

(** ** The image store *)
Module ImageStoreFacts.
Import ImageStore.









End ImageStoreFacts.




(** ** Analytics *)
Module AnalyticsFacts.
Import Analytics.

Lemma dispatch_track env p w :
  dispatch env (TrackGeneration p) w
  = {| result := inr (JObj [("tracked", JBool true)]);
       world := with_analytics (track p (Date_now env 0) (analytics w)) w;
       requests := [] |}.
Proof. by destruct w. Qed.


Lemma Qc_of_nat_S (k : nat) :
  Qc_of_Z (Z.of_nat (S k)) = (Qc_of_Z (Z.of_nat k) + 1)%Qc.
Proof.
  apply Qc_is_canon. unfold Qc_of_Z. simpl.
  rewrite !Qred_correct. unfold Qeq, inject_Z, Qplus. simpl. lia.
Qed.









End AnalyticsFacts.




(** C10: a [track-generation] call with [success = false] appends exactly
    one event, with the call's type and payload, and leaves the cost and
    performance aggregates as they were; nothing else in the world changes
    and no request is made. *)
Theorem failed_generation_only_logs (env : Env) (type : Analytics.GenerationType)
    (duration : option Qc) (w : World) :
  let p := {| Analytics.tg_type := type; Analytics.tg_success := false;
              Analytics.tg_duration := duration |} in
  let after := world (dispatch env (TrackGeneration p) w) in
  (∃ event, events (analytics after) = events (analytics w) ++ [event]
            ∧ ev_data event = Some (Analytics.event_data p))
  ∧ totalVideos (costs (analytics after)) = totalVideos (costs (analytics w))
  ∧ totalImages (costs (analytics after)) = totalImages (costs (analytics w))
  ∧ estimatedCost (costs (analytics after)) = estimatedCost (costs (analytics w))
  ∧ performance (analytics after) = performance (analytics w)
  ∧ project after = project w ∧ preferences after = preferences w
  ∧ mediaLibrary after = mediaLibrary w ∧ files after = files w.
Proof.
  intros p after. subst after. rewrite AnalyticsFacts.dispatch_track.
  destruct w as [pr an pf ml fs]. simpl. split; [eauto|]. done.
Qed.

(** ** The project handlers, case by case *)
Module ActionFacts.
Import Actions.

Ltac unfold_monad :=
  unfold bind, ret, throw, try_catch, lift, get_memory, set_memory, now, uuid,
    do_fetch, load_image, save_image, clear_images in *.

(** Case analysis on the innermost scrutinee first. *)
Ltac case_split :=
  repeat match goal with
         | |- context [match ?x with _ => _ end] =>
             lazymatch x with
             | context [match _ with _ => _ end] => fail
             | _ => destruct x eqn:?; cbn beta iota
             end
         end.

(** What [startGeneration] can do: exactly one request goes out; then
    either it throws and the memory is as before, or it returns a success
    object and one video, in state [generating], is appended. *)
Lemma startGeneration_cases env p s :
  ∃ c, calls (startGeneration env p s).2 = calls s ++ [c]
  ∧ disk (startGeneration env p s).2 = disk s
  ∧ ((∃ e, (startGeneration env p s).1 = inl e
           ∧ memory (startGeneration env p s).2 = memory s)
     ∨ (∃ fields v,
           (startGeneration env p s).1 = inr (JObj (success_field true :: fields))
           ∧ v_status v = generating
           ∧ memory (startGeneration env p s).2 = push_video v (memory s))).
Proof.
  unfold startGeneration. unfold_monad. cbv zeta.
  case_split; simpl; eexists; (split; [reflexivity|]); (split; [reflexivity|]);
    first [ left; eexists; split; reflexivity
          | right; eexists _, _; split; [reflexivity|]; split; [|reflexivity]; done ].
Qed.

Lemma generateVideo_rejected env p s rejected :
  validation p = Some rejected →
  generateVideo env p s
  = (inr rejected, mkHState (memory s) (disk s) (calls s) (S (tick s))).
Proof. intros H. unfold generateVideo. unfold_monad. by rewrite H. Qed.

Lemma generateVideo_started env p s :
  validation p = None →
  ∃ c, calls (generateVideo env p s).2 = calls s ++ [c]
  ∧ disk (generateVideo env p s).2 = disk s
  ∧ ((∃ e, (generateVideo env p s).1
           = inr (failure e "Failed to start video generation")
           ∧ memory (generateVideo env p s).2 = memory s)
     ∨ (∃ fields v,
           (generateVideo env p s).1 = inr (JObj (success_field true :: fields))
           ∧ v_status v = generating
           ∧ memory (generateVideo env p s).2 = push_video v (memory s))).
Proof.
  intros H. unfold generateVideo, try_catch, bind, now. rewrite H.
  set (s1 := mkHState (memory s) (disk s) (calls s) (S (tick s))).
  destruct (startGeneration_cases env p s1) as (c & Hc & Hd & Hr).
  exists c. destruct (startGeneration env p s1) as [[e|j] s2]; simpl in *.
  - split; [done|]. split; [done|]. left.
    destruct Hr as [(e' & _ & Hm)|(? & ? & ? & _)]; [|done]. eauto.
  - split; [done|]. split; [done|]. right.
    destruct Hr as [(? & ? & _)|(fields & v & Hj & Hv & Hm)]; [done|]. eauto.
Qed.

(** What [check-video-status] can do: it always returns; the result is a
    caught failure, the [failed] object or a success object; the disk is
    untouched; the memory is as before or the first video with the
    operation name has become [ready]. *)
Lemma checkVideoStatus_cases env operationName s :
  ∃ j, (checkVideoStatus env operationName s).1 = inr j
  ∧ (well_shaped j ∨ j = generation_failed)
  ∧ disk (checkVideoStatus env operationName s).2 = disk s
  ∧ (memory (checkVideoStatus env operationName s).2 = memory s
     ∨ ∃ url, memory (checkVideoStatus env operationName s).2
              = set_videos (update_first (has_operation operationName)
                              (mark_ready url) (videos (memory s))) (memory s)).
Proof.
  unfold checkVideoStatus, well_shaped. unfold_monad. cbv zeta.
  case_split; simpl; eexists; (split; [reflexivity|]);
    (split; [first [ by right | left; left; by eexists _, _
                   | left; right; by eexists ]|]);
    (split; [reflexivity|]); first [ by left | right; by eexists ].
Qed.

Lemma store_images_cases env prompt imgs : ∀ s,
  ∃ stored, (store_images env prompt imgs s).1 = inr stored
  ∧ (imgs = [] → stored = [])
  ∧ calls (store_images env prompt imgs s).2 = calls s
  ∧ videos (memory (store_images env prompt imgs s).2) = videos (memory s)
  ∧ activeWorkflows (memory (store_images env prompt imgs s).2)
    = activeWorkflows (memory s).
Proof.
  induction imgs as [|img imgs IH]; intros s; [by eexists|].
  cbn [store_images].
  destruct (JS.truthy (JS.opt_get "imageBytes" img)).
  - unfold store_image. unfold_monad. cbv zeta. simpl.
    match goal with
    | |- context [store_images env prompt imgs ?s1] =>
        destruct (IH s1) as (stored & Hr & _ & Hc & Hv & Hw);
        destruct (store_images env prompt imgs s1) as [r s2]
    end.
    simpl in *. subst r. simpl. eexists. split; [done|]. done.
  - destruct (IH s) as (stored & Hr & _ & Hc & Hv & Hw).
    exists stored. done.
Qed.

(** What [generate-imagen-image] can do: it always returns a well-shaped
    result, and the videos and workflows of the project are as before. *)
Lemma generateImage_cases env p s :
  ∃ j, (generateImage env p s).1 = inr j
  ∧ well_shaped j
  ∧ videos (memory (generateImage env p s).2) = videos (memory s)
  ∧ activeWorkflows (memory (generateImage env p s).2) = activeWorkflows (memory s).
Proof.
  unfold generateImage, well_shaped. unfold_monad. cbv zeta. simpl.
  destruct (fetch env _ _) as [e|response]; simpl.
  { eexists. split; [done|]. split; [left; by eexists _, _|]. done. }
  destruct (ok response); simpl;
    [|eexists; split; [done|]; split; [left; by eexists _, _|]; done].
  destruct (json response) as [e|body]; simpl.
  { eexists. split; [done|]. split; [left; by eexists _, _|]. done. }
  destruct (JS.opt_get "images" body) eqn:Himages;
    try (unfold store_image; unfold_monad; cbv zeta;
         destruct (JS.truthy (JS.opt_get "imageBytes" (JS.opt_get "image" body)));
         simpl; eexists; (split; [reflexivity|]);
         (split; [first [ left; by eexists _, _ | right; by eexists ]|]); done).
  match goal with
  | |- context [store_images env ?pr elements ?s1] =>
      destruct (store_images_cases env pr elements s1) as (stored & Hr & _ & Hc & Hv & Hw);
      destruct (store_images env pr elements s1) as [r s2]
  end.
  simpl in *. subst r. destruct stored; simpl;
    (eexists; split; [done|]; split; [first [ left; by eexists _, _ | right; by eexists ]|]; done).
Qed.

End ActionFacts.

(** ** Validation of [generate-veo-video] *)
Module ValidationFacts.
Import Actions.

Lemma dispatch_rejected env p w rejected :
  validation p = Some rejected →
  dispatch env (GenerateVeoVideo p) w
  = {| result := inr rejected; world := w; requests := [] |}.
Proof.
  intros H. unfold dispatch, run_in.
  rewrite (ActionFacts.generateVideo_rejected _ _ _ _ H). by destruct w.
Qed.

Lemma veo3_isVeo3 p : veo3_family (model p) → isVeo3 p = true ∧ isVeo2 p = false.
Proof. unfold isVeo3, isVeo2. by intros [-> | ->]. Qed.

Lemma veo2_isVeo2 p :
  model p = veo_2_0_generate_001 → isVeo3 p = false ∧ isVeo2 p = true.
Proof. unfold isVeo3, isVeo2. by intros ->. Qed.

Lemma failure_inj e m e' m' : failure e m = failure e' m' → e = e' ∧ m = m'.
Proof. unfold failure. by intros [= -> ->]. Qed.

(** Past the guards the result is never one of the three rejections. *)
Lemma started_not_rejected env p w error message :
  validation p = None →
  message ≠ "Failed to start video generation" →
  result (dispatch env (GenerateVeoVideo p) w) ≠ inr (failure error message).
Proof.
  intros Hv Hm. unfold dispatch, run_in.
  set (s := mkHState (project w) (files w) [] 0%nat).
  destruct (ActionFacts.generateVideo_started env p s Hv) as (c & _ & _ & Hr).
  destruct (generateVideo env p s) as [r s']. simpl in *.
  destruct Hr as [(e & -> & _)|(fields & v & -> & _)].
  - intros H.
    assert (H' : failure e "Failed to start video generation"
                 = failure error message) by congruence.
    apply failure_inj in H' as [_ H']. by symmetry in H'.
  - done.
Qed.

Lemma started_one_request env p w :
  validation p = None →
  ∃ c, requests (dispatch env (GenerateVeoVideo p) w) = [c].
Proof.
  intros Hv. unfold dispatch, run_in.
  set (s := mkHState (project w) (files w) [] 0%nat).
  destruct (ActionFacts.generateVideo_started env p s Hv) as (c & Hc & _).
  destruct (generateVideo env p s) as [r s']. simpl in *. eauto.
Qed.

End ValidationFacts.

(** C4: a request for a Veo 3 family model with aspect ratio 9:16 is
    answered [{success: false, error: 'INVALID_ASPECT_RATIO', ...}]; no
    request goes out and the world (every container and the disk) is as
    before. *)
Theorem veo3_portrait_rejected (env : Env) (p : Actions.GenerateVideoParams)
    (w : World) :
  veo3_family (Actions.model p) →
  Actions.aspectRatio p = Actions.ar_9_16 →
  let outcome := dispatch env (GenerateVeoVideo p) w in
  result outcome = inr Actions.invalid_aspect_ratio
  ∧ field "success" (result outcome) = Some (JBool false)
  ∧ field "error" (result outcome) = Some (JStr "INVALID_ASPECT_RATIO")
  ∧ requests outcome = []
  ∧ world outcome = w.
Proof.
  intros Hm Ha outcome. subst outcome.
  destruct (ValidationFacts.veo3_isVeo3 p Hm) as [H3 _].
  rewrite (ValidationFacts.dispatch_rejected env p w Actions.invalid_aspect_ratio).
  - done.
  - unfold Actions.validation, Actions.aspect_ratio_guard. by rewrite H3, Ha.
Qed.

Lemma veo3_portrait_rejected_witness :
  let p := {| Actions.prompt := "a tall waterfall";
              Actions.model := Actions.veo_3_0_fast_generate_preview;
              Actions.negativePrompt := None;
              Actions.aspectRatio := Actions.ar_9_16;
              Actions.personGeneration := None;
              Actions.numberOfVideos := 1%Qc;
              Actions.useImageId := None; Actions.useLatestImage := None;
              Actions.imageFile := None |} in
  let outcome := dispatch (answering (JObj [("name", JStr "operations/1")]))
                   (GenerateVeoVideo p) create_world in
  result outcome = inr Actions.invalid_aspect_ratio
  ∧ field "success" (result outcome) = Some (JBool false)
  ∧ field "error" (result outcome) = Some (JStr "INVALID_ASPECT_RATIO")
  ∧ requests outcome = []
  ∧ world outcome = create_world.
Proof.
  intros p. apply (veo3_portrait_rejected _ p create_world).
  - right. reflexivity.
  - reflexivity.
Defined.




(** C6 (amended): for a request with [numberOfVideos] greater than 1: with
    [veo-2.0-generate-001] no guard fires, the result is not the
    number-of-videos rejection and exactly one request goes out; with a
    Veo 3 family model the request is rejected by validation, nothing goes
    out and the world is as before, and the rejection is
    [INVALID_NUMBER_OF_VIDEOS] when the two earlier guards (aspect ratio,
    person generation) do not fire. *)
Theorem multiple_videos_by_model (env : Env) (p : Actions.GenerateVideoParams)
    (w : World) :
  (1 < Actions.numberOfVideos p)%Qc →
  let outcome := dispatch env (GenerateVeoVideo p) w in
  (Actions.model p = Actions.veo_2_0_generate_001 →
   Actions.validation p = None
   ∧ result outcome ≠ inr Actions.invalid_number_of_videos
   ∧ ∃ request, requests outcome = [request])
  ∧ (veo3_family (Actions.model p) →
     (∃ rejected, Actions.validation p = Some rejected
                  ∧ result outcome = inr rejected)
     ∧ field "success" (result outcome) = Some (JBool false)
     ∧ requests outcome = []
     ∧ world outcome = w
     ∧ (Actions.aspect_ratio_guard p = false →
        Actions.person_generation_guard p = false →
        result outcome = inr Actions.invalid_number_of_videos
        ∧ field "error" (result outcome) = Some (JStr "INVALID_NUMBER_OF_VIDEOS"))).
Proof.
  intros Hn outcome. subst outcome.
  assert (Hnum : truthy_number (Actions.numberOfVideos p)
                 && bool_decide (1 < Actions.numberOfVideos p)%Qc = true).
  { rewrite (bool_decide_eq_true_2 _ Hn), andb_true_r.
    unfold truthy_number. rewrite bool_decide_eq_false_2; [done|].
    intros H0. rewrite H0 in Hn. apply Qclt_not_le in Hn. apply Hn.
    unfold Qcle, Qle. simpl. lia. }
  split.
  - intros Hm. destruct (ValidationFacts.veo2_isVeo2 p Hm) as [H3 H2].
    assert (Hv : Actions.validation p = None).
    { unfold Actions.validation, Actions.aspect_ratio_guard,
        Actions.person_generation_guard, Actions.number_of_videos_guard.
      by rewrite H3, H2. }
    split; [done|]. split.
    + by apply ValidationFacts.started_not_rejected.
    + by apply ValidationFacts.started_one_request.
  - intros Hm. destruct (ValidationFacts.veo3_isVeo3 p Hm) as [H3 H2].
    assert (Hguard : Actions.number_of_videos_guard p = true).
    { unfold Actions.number_of_videos_guard. rewrite H2. exact Hnum. }
    assert (Hv : ∃ rejected, Actions.validation p = Some rejected
                 ∧ field "success" (inr rejected : Exn + Json) = Some (JBool false)).
    { unfold Actions.validation. rewrite Hguard. repeat case_match; eauto. }
    destruct Hv as (rejected & Hv & Hs).
    rewrite (ValidationFacts.dispatch_rejected env p w rejected Hv). simpl.
    split; [eauto|]. split; [done|]. split; [done|]. split; [done|].
    intros Ha Hp. unfold Actions.validation in Hv.
    rewrite Ha, Hp, Hguard in Hv. by simplify_eq.
Qed.

Lemma multiple_videos_by_model_witness :
  let p := {| Actions.prompt := "two takes of a city street";
              Actions.model := Actions.veo_2_0_generate_001;
              Actions.negativePrompt := None;
              Actions.aspectRatio := Actions.ar_9_16;
              Actions.personGeneration := None;
              Actions.numberOfVideos := Qc_of_Z 2;
              Actions.useImageId := None; Actions.useLatestImage := None;
              Actions.imageFile := None |} in
  (1 < Actions.numberOfVideos p)%Qc
  ∧ Actions.validation p = None
  ∧ result (dispatch offline (GenerateVeoVideo p) create_world)
    ≠ inr Actions.invalid_number_of_videos
  ∧ ∃ request, requests (dispatch offline (GenerateVeoVideo p) create_world)
               = [request].
Proof.
  intros p.
  assert (Hn : (1 < Actions.numberOfVideos p)%Qc) by reflexivity.
  split; [exact Hn|].
  apply (multiple_videos_by_model offline p create_world Hn). reflexivity.
Defined.

(** C6, as stated, fails: the guards run in order, so a Veo 3 request for
    two videos in 9:16 is rejected as [INVALID_ASPECT_RATIO]. *)
Lemma multiple_videos_counterexample :
  let p := {| Actions.prompt := "two takes of a city street";
              Actions.model := Actions.veo_3_0_generate_preview;
              Actions.negativePrompt := None;
              Actions.aspectRatio := Actions.ar_9_16;
              Actions.personGeneration := None;
              Actions.numberOfVideos := Qc_of_Z 2;
              Actions.useImageId := None; Actions.useLatestImage := None;
              Actions.imageFile := None |} in
  (1 < Actions.numberOfVideos p)%Qc
  ∧ field "error" (result (dispatch offline (GenerateVeoVideo p) create_world))
    = Some (JStr "INVALID_ASPECT_RATIO")
  ∧ field "error" (result (dispatch offline (GenerateVeoVideo p) create_world))
    ≠ Some (JStr "INVALID_NUMBER_OF_VIDEOS").
Proof.
  intros p. split; [reflexivity|].
  by rewrite (ValidationFacts.dispatch_rejected offline p create_world
                Actions.invalid_aspect_ratio).
Qed.

(** ** [clear-project] *)
Module ClearFacts.

Lemma dispatch_clear_confirmed env w :
  dispatch env (ClearProject true) w
  = {| result := inr (JObj [success_field true;
                            ("message", JStr "Project cleared successfully")]);
       world := {| project := Actions.cleared (project w);
                   analytics := analytics w;
                   preferences := preferences w;
                   mediaLibrary := mediaLibrary w;
                   files := ImageStore.clearProjectImages
                              (filter (λ id, id ≠ "")
                                 (map img_id (images (project w))))
                              (files w) |};
       requests := [] |}.
Proof. by destruct w. Qed.

Lemma dispatch_clear_unconfirmed env w :
  dispatch env (ClearProject false) w
  = {| result := inr Actions.clear_refused; world := w; requests := [] |}.
Proof. by destruct w. Qed.

End ClearFacts.




(** C9: [clear-project] with [confirm = false] answers
    [{success: false, ...}] and leaves the whole world as it was: every
    array of every container and every file on disk; no request goes out. *)
Theorem clear_project_unconfirmed (env : Env) (w : World) :
  let outcome := dispatch env (ClearProject false) w in
  result outcome = inr Actions.clear_refused
  ∧ field "success" (result outcome) = Some (JBool false)
  ∧ world outcome = w
  ∧ requests outcome = [].
Proof.
  intros outcome. subst outcome.
  by rewrite ClearFacts.dispatch_clear_unconfirmed.
Qed.

(** ** Every handler returns *)
Module ShapeFacts.
Import Actions.


Lemma well_shaped_ok j : well_shaped j → failure_carries_message j.
Proof.
  intros [(e & m & ->)|(fields & ->)] Hs.
  - split; [by exists m|]. left. by exists e.
  - done.
Qed.

Lemma no_success_field_ok j :
  field "success" (inr j) = None → failure_carries_message j.
Proof. intros H Hs. by rewrite H in Hs. Qed.

Lemma validation_well_shaped p rejected :
  validation p = Some rejected → well_shaped rejected.
Proof.
  unfold validation. intros H. left.
  repeat case_match; simplify_eq; by eexists _, _.
Qed.

Lemma generateVideo_ok env p w :
  ∃ j, result (dispatch env (GenerateVeoVideo p) w) = inr j ∧ well_shaped j.
Proof.
  destruct (validation p) as [rejected|] eqn:Hv.
  - rewrite (ValidationFacts.dispatch_rejected env p w rejected Hv).
    eauto using validation_well_shaped.
  - unfold dispatch, run_in.
    set (s := mkHState (project w) (files w) [] 0%nat).
    destruct (ActionFacts.generateVideo_started env p s Hv) as (c & _ & _ & Hr).
    destruct (generateVideo env p s) as [r s']. simpl in *.
    destruct Hr as [(e & -> & _)|(fields & v & -> & _)]; eexists; split; try done.
    + left. by eexists _, _.
    + right. by eexists.
Qed.

Lemma checkVideoStatus_ok env operationName w :
  ∃ j, result (dispatch env (CheckVideoStatus operationName) w) = inr j
       ∧ (well_shaped j ∨ j = generation_failed).
Proof.
  unfold dispatch, run_in.
  set (s := mkHState (project w) (files w) [] 0%nat).
  destruct (ActionFacts.checkVideoStatus_cases env operationName s)
    as (j & Hj & Hshape & _).
  destruct (checkVideoStatus env operationName s) as [r s']. simpl in *. eauto.
Qed.

Lemma generateImage_ok env p w :
  ∃ j, result (dispatch env (GenerateImagenImage p) w) = inr j ∧ well_shaped j.
Proof.
  unfold dispatch, run_in.
  set (s := mkHState (project w) (files w) [] 0%nat).
  destruct (ActionFacts.generateImage_cases env p s) as (j & Hj & Hshape & _).
  destruct (generateImage env p s) as [r s']. simpl in *. eauto.
Qed.

End ShapeFacts.

(** C7 (amended): every action of the dispatch surface, on every input and
    in every environment (answers, refusals and exceptions of the provider
    included), returns a result and propagates no exception; every failure
    result ([success: false]) carries a [message]; it carries an [error] as
    well unless it is the [failed] result of [check-video-status] or the
    refusal of an unconfirmed [clear-project]. *)
Theorem handlers_return (env : Env) (a : Action) (w : World) :
  ∃ j, result (dispatch env a w) = inr j
       ∧ (field "success" (inr j) = Some (JBool false) →
          (∃ message, field "message" (inr j) = Some (JStr message))
          ∧ ((∃ error, field "error" (inr j) = Some (JStr error))
             ∨ j = Actions.generation_failed ∨ j = Actions.clear_refused)).
Proof.
  destruct a as [p|op|p|t st|c|n st|p|p|n st|pr op|id st url|pr url].
  - destruct (ShapeFacts.generateVideo_ok env p w) as (j & -> & H).
    exists j. split; [done|]. by apply ShapeFacts.well_shaped_ok.
  - destruct (ShapeFacts.checkVideoStatus_ok env op w) as (j & -> & [H| ->]).
    + exists j. split; [done|]. by apply ShapeFacts.well_shaped_ok.
    + eexists. split; [done|]. intros _. split; [by eexists|]. by right; left.
  - destruct (ShapeFacts.generateImage_ok env p w) as (j & -> & H).
    exists j. split; [done|]. by apply ShapeFacts.well_shaped_ok.
  - destruct w. eexists. split; [reflexivity|]. by intros [=].
  - destruct c.
    + rewrite ClearFacts.dispatch_clear_confirmed. eexists. split; [done|].
      by intros [=].
    + rewrite ClearFacts.dispatch_clear_unconfirmed. eexists. split; [done|].
      intros _. split; [by eexists|]. by right; right.
  - destruct w. eexists. split; [reflexivity|]. by intros [=].
  - destruct w. eexists. split; [reflexivity|]. by intros [=].
  - destruct w. eexists. split; [reflexivity|]. by intros [=].
  - destruct w. eexists. split; [reflexivity|]. by intros [=].
  - destruct w. eexists. split; [reflexivity|]. by intros [=].
  - destruct w. eexists. split; [reflexivity|]. by intros [=].
  - destruct w. eexists. split; [reflexivity|]. by intros [=].
Qed.

Lemma handlers_return_witness :
  ∃ j, result (dispatch offline (CheckVideoStatus "operations/1") sample_world)
       = inr j
       ∧ field "success" (inr j) = Some (JBool false)
       ∧ (∃ message, field "message" (inr j) = Some (JStr message))
       ∧ ((∃ error, field "error" (inr j) = Some (JStr error))
          ∨ j = Actions.generation_failed ∨ j = Actions.clear_refused).
Proof.
  destruct (handlers_return offline (CheckVideoStatus "operations/1") sample_world)
    as (j & Hj & H).
  exists j. split; [exact Hj|].
  assert (Hs : field "success" (inr j : Exn + Json) = Some (JBool false)).
  { vm_compute in Hj. injection Hj as <-. reflexivity. }
  split; [exact Hs|]. exact (H Hs).
Defined.

(** C7, as stated, fails: when the provider reports the operation done
    without a video, [check-video-status] answers
    [{success: false, status: 'failed', message}], which has no [error]. *)
Lemma failure_shape_counterexample :
  let outcome :=
    dispatch (answering (JObj [("done", JBool true)]))
      (CheckVideoStatus "operations/1") sample_world in
  field "success" (result outcome) = Some (JBool false)
  ∧ field "status" (result outcome) = Some (JStr "failed")
  ∧ field "error" (result outcome) = None.
Proof. by vm_compute. Qed.

(** ** The status of a project video over time *)
Module StatusFacts.
Import Actions.

Lemma status_step_refl v : status_step v v.
Proof. split; auto. Qed.

Lemma status_step_trans v1 v2 v3 :
  status_step v1 v2 → status_step v2 v3 → status_step v1 v3.
Proof.
  intros [Hid1 Hs1] [Hid2 Hs2]. split; [congruence|].
  destruct Hs2 as [Hs2|Hs2]; [rewrite Hs2; exact Hs1|by right].
Qed.

Lemma status_step_mark_ready url v : status_step v (mark_ready url v).
Proof. split; [done|by right]. Qed.

Lemma update_first_lookup {A} (p : A → bool) (f : A → A) (l : list A) i x :
  l !! i = Some x →
  ∃ x', update_first p f l !! i = Some x' ∧ (x' = x ∨ x' = f x).
Proof.
  revert i. induction l as [|y l IH]; intros i Hi; [done|].
  cbn [update_first]. destruct (p y) eqn:Hp.
  - destruct i as [|i]; simpl in *; simplify_eq; eauto.
  - destruct i as [|i]; simpl in *; simplify_eq; eauto.
Qed.


Lemma follows_refl vs : follows vs vs.
Proof. intros i v H. eauto using status_step_refl. Qed.

Lemma follows_trans vs1 vs2 vs3 :
  follows vs1 vs2 → follows vs2 vs3 → follows vs1 vs3.
Proof.
  intros H12 H23 i v Hv.
  destruct (H12 i v Hv) as (v2 & Hv2 & Hs2).
  destruct (H23 i v2 Hv2) as (v3 & Hv3 & Hs3).
  eauto using status_step_trans.
Qed.

Lemma follows_push vs v : follows vs (vs ++ [v]).
Proof.
  intros i x Hx. exists x. split; [|apply status_step_refl].
  by apply lookup_app_l_Some.
Qed.

Lemma follows_mark_ready operationName url vs :
  follows vs (update_first (has_operation operationName) (mark_ready url) vs).
Proof.
  intros i v Hv.
  destruct (update_first_lookup (has_operation operationName) (mark_ready url)
              vs i v Hv) as (v' & Hv' & [-> | ->]);
    eauto using status_step_refl, status_step_mark_ready.
Qed.

Lemma project_run_in (m : M VideoProjectMemory Json) w :
  project (world (run_in project with_project m w))
  = memory (m (mkHState (project w) (files w) [] 0%nat)).2.
Proof. unfold run_in. by destruct (m _) as [r s']. Qed.

(** One action, whatever it is except a confirmed [clear-project]. *)
Lemma follows_dispatch env a w :
  a ≠ ClearProject true →
  follows (videos (project w)) (videos (project (world (dispatch env a w)))).
Proof.
  intros Hclear.
  destruct a as [p|op|p|t st|c|n st|p|p|n st|pr op|id st url|pr url];
    try (destruct w; apply follows_refl).
  - destruct (validation p) as [rejected|] eqn:Hv.
    + rewrite (ValidationFacts.dispatch_rejected env p w rejected Hv).
      apply follows_refl.
    + unfold dispatch. rewrite project_run_in.
      set (s := mkHState (project w) (files w) [] 0%nat).
      destruct (ActionFacts.generateVideo_started env p s Hv) as (c & _ & _ & Hr).
      destruct Hr as [(e & _ & ->)|(fields & v & _ & _ & ->)].
      * apply follows_refl.
      * apply follows_push.
  - unfold dispatch. rewrite project_run_in.
    set (s := mkHState (project w) (files w) [] 0%nat).
    destruct (ActionFacts.checkVideoStatus_cases env op s)
      as (j & _ & _ & _ & [-> | [url ->]]).
    + apply follows_refl.
    + apply follows_mark_ready.
  - unfold dispatch. rewrite project_run_in.
    set (s := mkHState (project w) (files w) [] 0%nat).
    destruct (ActionFacts.generateImage_cases env p s) as (j & _ & _ & -> & _).
    apply follows_refl.
  - destruct c; [done|]. rewrite ClearFacts.dispatch_clear_unconfirmed.
    apply follows_refl.
Qed.

Lemma follows_run steps : ∀ w,
  Forall (λ step : Env * Action, step.2 ≠ ClearProject true) steps →
  follows (videos (project w)) (videos (project (run steps w))).
Proof.
  induction steps as [|[env a] steps IH]; intros w Hsteps.
  - apply follows_refl.
  - apply Forall_cons in Hsteps as [Ha Hsteps]. cbn [run].
    eapply follows_trans; [by apply follows_dispatch|by apply IH].
Qed.

End StatusFacts.

(** C8 (amended): along every sequence of actions that does not clear the
    project, in every environment, a video record of the project container
    keeps its place and its id, and its status is as it was or has become
    [ready]; so a [ready] video stays [ready] and a video that has left
    [generating] does not return to it.  (The media-library container is
    another matter: its [update-video-status] writes whatever status the
    call supplies.) *)
Theorem project_status_monotone (steps : list (Env * Action)) (w : World)
    (i : nat) (v : Video) :
  Forall (λ step : Env * Action, step.2 ≠ ClearProject true) steps →
  videos (project w) !! i = Some v →
  ∃ v', videos (project (run steps w)) !! i = Some v'
        ∧ v_id v' = v_id v
        ∧ (v_status v' = v_status v ∨ v_status v' = ready)
        ∧ (v_status v = ready → v_status v' = ready)
        ∧ (v_status v ≠ generating → v_status v' ≠ generating).
Proof.
  intros Hsteps Hv.
  destruct (StatusFacts.follows_run steps w Hsteps i v Hv) as (v' & Hv' & Hid & Hs).
  exists v'. split_and!; try done.
  - intros Hr. destruct Hs as [Hs|Hs]; congruence.
  - intros Hg. destruct Hs as [Hs|Hs]; congruence.
Qed.

Lemma project_status_monotone_witness :
  let done_with_video :=
    JObj [("done", JBool true);
          ("response",
           JObj [("generatedVideos",
                  JArr [JObj [("video", JObj [("uri", JStr "files/1")])]])])] in
  let steps :=
    [(answering done_with_video, CheckVideoStatus "operations/1");
     (answering (JObj [("name", JStr "operations/2")]),
      GenerateVeoVideo (text_request Actions.veo_2_0_generate_001));
     (offline, UpdateVideoStatus "vid-1" generating None);
     (answering (JObj [("done", JBool false)]), CheckVideoStatus "operations/1")] in
  ∃ v', videos (project (run steps sample_world)) !! 0%nat = Some v'
        ∧ v_id v' = "vid-1"
        ∧ v_status v' = ready.
Proof.
  intros done_with_video steps.
  destruct (project_status_monotone steps sample_world 0 (sample_video generating))
    as (v' & Hv' & Hid & Hs & _).
  - repeat constructor; discriminate.
  - reflexivity.
  - exists v'. split; [exact Hv'|]. split; [exact Hid|].
    vm_compute in Hv'. injection Hv' as <-. reflexivity.
Defined.

(** C8, as stated, fails: [update-video-status] takes any of the three
    statuses and writes it, so a [ready] video of the media library goes
    back to [generating]. *)
Lemma status_monotone_counterexample :
  let after :=
    world (dispatch offline (UpdateVideoStatus "vid-1" generating None)
             sample_world) in
  lv_status <$> lib_videos (mediaLibrary sample_world) = [ready]
  ∧ lv_status <$> lib_videos (mediaLibrary after) = [generating]
  ∧ lv_id <$> lib_videos (mediaLibrary after) = ["vid-1"].
Proof. by vm_compute. Qed.

(** * Further properties of the modelled code *)

(** ** The image store *)





(** X3: deleting an image whose file is absent changes nothing (the error
    is swallowed), and deleting twice is deleting once. *)
Theorem delete_absent_is_noop (imageId : string) (disk : gmap string (list byte)) :
  (ImageStore.loadImage imageId disk = None →
   ImageStore.deleteImage imageId disk = disk)
  ∧ ImageStore.deleteImage imageId (ImageStore.deleteImage imageId disk)
    = ImageStore.deleteImage imageId disk.
Proof.
  unfold ImageStore.loadImage, ImageStore.deleteImage. split.
  - destruct (disk !! ImageStore.image_path imageId) eqn:E; [done|].
    intros _. by apply delete_id.
  - apply delete_id. apply lookup_delete_eq.
Qed.

Lemma delete_absent_is_noop_witness :
  ImageStore.deleteImage "img-9" (files sample_world) = files sample_world.
Proof.
  destruct (delete_absent_is_noop "img-9" (files sample_world)) as [H _].
  apply H. reflexivity.
Defined.



(** ** Which container an action touches *)
Module FrameFacts.

Lemma run_in_project_frame (m : M VideoProjectMemory Json) w :
  analytics (world (run_in project with_project m w)) = analytics w
  ∧ preferences (world (run_in project with_project m w)) = preferences w
  ∧ mediaLibrary (world (run_in project with_project m w)) = mediaLibrary w
  ∧ files (world (run_in project with_project m w))
    = disk (m (mkHState (project w) (files w) [] 0%nat)).2.
Proof. unfold run_in. by destruct (m _) as [r s']. Qed.

Lemma dispatch_frame env a w :
  (owner a ≠ ProjectContainer → project (world (dispatch env a w)) = project w)
  ∧ (owner a ≠ AnalyticsContainer → analytics (world (dispatch env a w)) = analytics w)
  ∧ (owner a ≠ PreferencesContainer →
     preferences (world (dispatch env a w)) = preferences w)
  ∧ (owner a ≠ LibraryContainer →
     mediaLibrary (world (dispatch env a w)) = mediaLibrary w).
Proof.
  destruct a; cbn [owner dispatch]; split_and!; intros Hne; try done;
    try (by destruct w);
    match goal with
    | |- context [run_in project with_project ?m w] =>
        destruct (run_in_project_frame m w) as (Ha & Hp & Hl & _); congruence
    end.
Qed.


End FrameFacts.



(** ** The analytics aggregates over a sequence of actions *)
Module AggregateFacts.
Import Analytics.

Lemma analytics_dispatch env a w :
  analytics (world (dispatch env a w))
  = match a with
    | TrackGeneration p => track p (Date_now env 0) (analytics w)
    | _ => analytics w
    end.
Proof.
  destruct (FrameFacts.dispatch_frame env a w) as (_ & H & _).
  destruct a; try (apply H; discriminate).
  rewrite AnalyticsFacts.dispatch_track. by destruct w.
Qed.

Lemma cost_consistent_track p t mem :
  cost_consistent mem → cost_consistent (track p t mem).
Proof.
  unfold cost_consistent, track. intros H.
  destruct (tg_success p), (tg_type p); simpl; try done.
  - destruct (tg_duration p) as [d|]; [destruct (truthy_number d)|];
      simpl; rewrite H; ring.
  - rewrite H. ring.
Qed.

Lemma count_success_cons type step steps :
  count_success type (step :: steps)
  = ((if tracks_success type step then 1 else 0) + count_success type steps)%Qc.
Proof.
  unfold count_success. rewrite filter_cons.
  destruct (tracks_success type step); case_decide; try done.
  - cbn [length]. rewrite AnalyticsFacts.Qc_of_nat_S. ring.
  - ring.
Qed.

Lemma counters_track p env mem :
  totalVideos (costs (track p (Date_now env 0) mem))
  = ((if tracks_success gen_video (env, TrackGeneration p) then 1 else 0)
     + totalVideos (costs mem))%Qc
  ∧ totalImages (costs (track p (Date_now env 0) mem))
    = ((if tracks_success gen_image (env, TrackGeneration p) then 1 else 0)
       + totalImages (costs mem))%Qc.
Proof.
  unfold track, tracks_success. simpl.
  destruct (tg_success p), (tg_type p); simpl; split; ring.
Qed.

Lemma untracked_track p t mem :
  averageImageTime (performance (track p t mem)) = averageImageTime (performance mem)
  ∧ failureRate (performance (track p t mem)) = failureRate (performance mem).
Proof.
  unfold track.
  destruct (tg_success p), (tg_type p); simpl; try done.
  by destruct (tg_duration p) as [d|]; [destruct (truthy_number d)|].
Qed.

End AggregateFacts.

(** X6: the estimated cost stays 50 cents a counted video plus 10 cents a
    counted image along every sequence of actions, whatever the
    environment; in particular from the fresh state. *)
Theorem cost_stays_consistent (steps : list (Env * Action)) (w : World) :
  cost_consistent (analytics w) → cost_consistent (analytics (run steps w)).
Proof.
  revert w. induction steps as [|[env a] steps IH]; intros w Hw; [done|].
  cbn [run]. apply IH. rewrite AggregateFacts.analytics_dispatch.
  destruct a; try done. by apply AggregateFacts.cost_consistent_track.
Qed.

Lemma cost_stays_consistent_witness :
  cost_consistent
    (analytics
       (run [(offline, video_tracked (Qc_of_Z 12));
             (offline, TrackGeneration {| Analytics.tg_type := Analytics.gen_image;
                                          Analytics.tg_success := true;
                                          Analytics.tg_duration := None |})]
          create_world)).
Proof.
  apply (cost_stays_consistent _ create_world).
  unfold cost_consistent. simpl. ring.
Defined.

(** X7: the counters count the successful [track-generation] calls, by
    type, and nothing else: no other action, and no failed call, moves
    them. *)
Theorem counters_count_successes (steps : list (Env * Action)) (w : World) :
  totalVideos (costs (analytics (run steps w)))
  = (totalVideos (costs (analytics w)) + count_success Analytics.gen_video steps)%Qc
  ∧ totalImages (costs (analytics (run steps w)))
    = (totalImages (costs (analytics w)) + count_success Analytics.gen_image steps)%Qc.
Proof.
  revert w. induction steps as [|[env a] steps IH]; intros w.
  - assert (H0 : ∀ type, count_success type [] = 0%Qc)
      by (intros type; by apply Qc_is_canon).
    rewrite !H0. cbn [run]. split; ring.
  - cbn [run]. destruct (IH (world (dispatch env a w))) as [-> ->].
    rewrite !AggregateFacts.count_success_cons, AggregateFacts.analytics_dispatch.
    destruct a as [| | | | | |p| | | | |];
      try (unfold tracks_success; simpl; split; ring).
    destruct (AggregateFacts.counters_track p env (analytics w)) as [-> ->].
    split; ring.
Qed.


(** X9: [averageImageTime] and [failureRate] are never written: along every
    sequence of actions, failed generations included, they keep the value
    they had. *)
Theorem image_time_and_failure_rate_never_move (steps : list (Env * Action))
    (w : World) :
  averageImageTime (performance (analytics (run steps w)))
  = averageImageTime (performance (analytics w))
  ∧ failureRate (performance (analytics (run steps w)))
    = failureRate (performance (analytics w)).
Proof.
  revert w. induction steps as [|[env a] steps IH]; intros w; [done|].
  cbn [run]. destruct (IH (world (dispatch env a w))) as [-> ->].
  rewrite AggregateFacts.analytics_dispatch.
  destruct a; try done. apply AggregateFacts.untracked_track.
Qed.

(** ** Preferences and the media library over a sequence of actions *)
Module LibraryFacts.


Lemma update_first_none {A} (p : A → bool) f (l : list A) :
  Forall (λ x, p x = false) l → update_first p f l = l ∧ existsb p l = false.
Proof.
  induction 1 as [|x l Hx _ [IH1 IH2]]; [done|].
  cbn [update_first existsb]. by rewrite Hx, IH1, IH2.
Qed.

Lemma update_first_at {A} (p : A → bool) f (l : list A) i x :
  l !! i = Some x → p x = true →
  (∀ j y, (j < i)%nat → l !! j = Some y → p y = false) →
  update_first p f l = <[i := f x]> l ∧ existsb p l = true.
Proof.
  revert i. induction l as [|y l IH]; intros i Hi Hx Hbefore; [done|].
  cbn [update_first existsb]. destruct i as [|i].
  - simpl in Hi. simplify_eq. by rewrite Hx.
  - rewrite (Hbefore 0%nat y) by (done || lia). simpl in Hi.
    destruct (IH i Hi Hx) as [-> ->]; [|done].
    intros j z Hj Hz. apply (Hbefore (S j) z); [lia|done].
Qed.

Lemma preferences_dispatch env a w :
  workflowTemplates (preferences (world (dispatch env a w)))
  = workflowTemplates (preferences w) ++ option_list (saved_template (env, a)).
Proof.
  destruct (FrameFacts.dispatch_frame env a w) as (_ & _ & H & _).
  destruct a; try (rewrite H by discriminate; by rewrite app_nil_r);
    destruct w; simpl; by rewrite ?app_nil_r.
Qed.


End LibraryFacts.

(** X10: saved workflow templates are only ever appended: along every
    sequence of actions the list grows by exactly the templates saved, in
    order, and nothing (not [update-video-preferences], not
    [clear-project]) removes or changes one. *)
Theorem templates_append_only (steps : list (Env * Action)) (w : World) :
  workflowTemplates (preferences (run steps w))
  = workflowTemplates (preferences w) ++ omap saved_template steps.
Proof.
  revert w. induction steps as [|[env a] steps IH]; intros w.
  - simpl. by rewrite app_nil_r.
  - cbn [run]. rewrite IH, LibraryFacts.preferences_dispatch, <- app_assoc.
    f_equal. simpl. by destruct (saved_template (env, a)).
Qed.


(** X12: [update-video-status] with an id that no library video has answers
    [{updated: false}] and changes nothing; with an id that some video has
    it answers [{updated: true}] and rewrites the first such video only:
    the status is the one supplied and the URL is replaced when a
    non-empty one is supplied. *)
Theorem library_status_update (env : Env) (videoId : string) (status : VideoStatus)
    (url : option string) (w : World) :
  let outcome := dispatch env (UpdateVideoStatus videoId status url) w in
  (Forall (λ v, lv_id v ≠ videoId) (lib_videos (mediaLibrary w)) →
   field "updated" (result outcome) = Some (JBool false)
   ∧ world outcome = w)
  ∧ (∀ i v,
       lib_videos (mediaLibrary w) !! i = Some v →
       lv_id v = videoId →
       (∀ j u, (j < i)%nat → lib_videos (mediaLibrary w) !! j = Some u →
               lv_id u ≠ videoId) →
       field "updated" (result outcome) = Some (JBool true)
       ∧ lib_videos (mediaLibrary (world outcome))
         = <[i := MediaLibrary.set_status status url v]> (lib_videos (mediaLibrary w))
       ∧ lv_status (MediaLibrary.set_status status url v) = status
       ∧ lv_url (MediaLibrary.set_status status url v)
         = (if truthy_string url then url else lv_url v)).
Proof.
  intros outcome. subst outcome. split.
  - intros Hnone.
    destruct (LibraryFacts.update_first_none
                (λ v, bool_decide (lv_id v = videoId))
                (MediaLibrary.set_status status url) (lib_videos (mediaLibrary w)))
      as [Hu He].
    { eapply Forall_impl; [exact Hnone|]. intros v Hv.
      by apply bool_decide_eq_false_2. }
    destruct w as [pr an pf [lv li lc] fs]. simpl in *.
    unfold field. simpl. by rewrite Hu, He.
  - intros i v Hi Hv Hbefore.
    destruct (LibraryFacts.update_first_at
                (λ v, bool_decide (lv_id v = videoId))
                (MediaLibrary.set_status status url) (lib_videos (mediaLibrary w))
                i v Hi) as [Hu He].
    { by apply bool_decide_eq_true_2. }
    { intros j u Hj Hu. apply bool_decide_eq_false_2. by apply (Hbefore j u). }
    destruct w as [pr an pf [lv li lc] fs]. simpl in *.
    unfold field. simpl. by rewrite Hu, He.
Qed.

Lemma library_status_update_witness :
  let outcome := dispatch offline (UpdateVideoStatus "vid-1" failed (Some ""))
                   sample_world in
  field "updated" (result outcome) = Some (JBool true)
  ∧ lib_videos (mediaLibrary (world outcome))
    = [MediaLibrary.set_status failed (Some "") (sample_library_video ready)]
  ∧ lv_status (MediaLibrary.set_status failed (Some "") (sample_library_video ready))
    = failed
  ∧ lv_url (MediaLibrary.set_status failed (Some "") (sample_library_video ready))
    = None.
Proof.
  intros outcome.
  destruct (library_status_update offline "vid-1" failed (Some "") sample_world)
    as [_ H].
  apply (H 0%nat (sample_library_video ready)).
  - reflexivity.
  - reflexivity.
  - intros j u Hj. lia.
Defined.

(** ** [generate-veo-video] in detail *)
Module VideoFacts.
Import Actions.

Lemma startGeneration_detail env p s :
  calls (startGeneration env p s).2
  = calls s ++ [PostForm (baseUrl env +:+ "/api/veo/generate")
                  (base_form p ++ image_form (chosen_image p (memory s) (disk s)))]
  ∧ ((∃ e, (startGeneration env p s).1 = inl e
           ∧ memory (startGeneration env p s).2 = memory s)
     ∨ (∃ name,
           (startGeneration env p s).1
           = inr (JObj [success_field true; ("operationName", name);
                        ("videoId", JStr (randomUUID env (tick s)));
                        ("message", JStr ("Video generation started. Operation: "
                                          +:+ JS.to_string name))])
           ∧ memory (startGeneration env p s).2
             = push_video (new_video (randomUUID env (tick s)) (prompt p) name
                             (Date_now env (S (tick s)))) (memory s))).
Proof.
  unfold startGeneration, chosen_image. ActionFacts.unfold_monad. cbv zeta.
  ActionFacts.case_split; simpl; (split; [reflexivity|]);
    first [ left; eexists; split; reflexivity
          | right; eexists; split; reflexivity ].
Qed.

Lemma dispatch_started env p w :
  validation p = None →
  requests (dispatch env (GenerateVeoVideo p) w)
  = [PostForm (baseUrl env +:+ "/api/veo/generate")
       (base_form p ++ image_form (chosen_image p (project w) (files w)))]
  ∧ ((∃ e, result (dispatch env (GenerateVeoVideo p) w)
           = inr (failure e "Failed to start video generation")
           ∧ world (dispatch env (GenerateVeoVideo p) w) = w)
     ∨ (∃ name,
           result (dispatch env (GenerateVeoVideo p) w)
           = inr (JObj [success_field true; ("operationName", name);
                        ("videoId", JStr (randomUUID env 1));
                        ("message", JStr ("Video generation started. Operation: "
                                          +:+ JS.to_string name))])
           ∧ world (dispatch env (GenerateVeoVideo p) w)
             = with_project
                 (push_video (new_video (randomUUID env 1) (prompt p) name
                                (Date_now env 2)) (project w)) w)).
Proof.
  intros Hv. unfold dispatch, run_in, generateVideo, try_catch, bind, now.
  rewrite Hv. cbn [memory disk calls tick].
  set (s1 := mkHState (project w) (files w) [] 1%nat).
  destruct (startGeneration_detail env p s1) as (Hc & Hr).
  pose proof (ActionFacts.startGeneration_cases env p s1) as (c & _ & Hd & _).
  destruct (startGeneration env p s1) as [[e|j] s2]; simpl in *.
  - split; [done|]. left.
    destruct Hr as [(e' & _ & Hm)|(? & ? & _)]; [|done].
    exists (error_message e). split; [done|]. rewrite Hm, Hd. by destruct w.
  - split; [done|]. right.
    destruct Hr as [(? & ? & _)|(name & Hj & Hm)]; [done|].
    exists name. simplify_eq. split; [done|]. rewrite Hm, Hd. by destruct w.
Qed.

End VideoFacts.





(** ** The form that [generate-veo-video] sends *)
Module FormFacts.
Import Actions.

Lemma split_nonempty sep s : split sep s ≠ [].
Proof.
  destruct s as [|c s]; [done|]. simpl.
  destruct (Ascii.eqb c sep); [done|]. by destruct (split sep s).
Qed.

Lemma split_no_sep sep s : after_first sep s = None → split sep s = [s].
Proof.
  induction s as [|c s IH]; [done|]. simpl.
  destruct (Ascii.eqb c sep); [done|]. intros H. by rewrite (IH H).
Qed.

Lemma split_cons_other sep c s :
  Ascii.eqb c sep = false →
  split sep (String c s)
  = String c (default "" (head (split sep s))) :: tail (split sep s).
Proof.
  intros H. simpl. rewrite H.
  pose proof (split_nonempty sep s). by destruct (split sep s).
Qed.

Lemma split_app_sep sep a b :
  after_first sep a = None →
  split sep (a +:+ String sep b) = a :: split sep b.
Proof.
  induction a as [|c a IH]; intros H.
  - simpl. by rewrite Ascii.eqb_refl.
  - simpl in H. destruct (Ascii.eqb c sep) eqn:E; [done|].
    change (String c a +:+ String sep b) with (String c (a +:+ String sep b)).
    rewrite (split_cons_other _ _ _ E), (IH H). reflexivity.
Qed.

Lemma b64_char_not_comma n : Ascii.eqb (Base64.b64_char n) "," = false.
Proof.
  unfold Base64.b64_char. generalize (N.to_nat n). intros k.
  do 64 (destruct k as [|k]; [reflexivity|]). reflexivity.
Qed.

Lemma after_first_app_none sep a b :
  after_first sep a = None → after_first sep (a +:+ b) = after_first sep b.
Proof.
  induction a as [|c a IH]; [done|]. simpl.
  destruct (Ascii.eqb c sep); [done|]. apply IH.
Qed.

Lemma encode_no_comma bs : after_first "," (Base64.base64_encode bs) = None.
Proof.
  unfold Base64.base64_encode. rewrite after_first_app_none.
  - unfold Base64.padding. by destruct (length bs mod 3) as [|[|[|?]]].
  - induction (Base64.encode_sextets bs) as [|n l IH]; [done|].
    simpl. by rewrite b64_char_not_comma.
Qed.

(** The image fields for what [loadImage] returns. *)
Lemma image_form_loaded buffer :
  image_form (Some ("data:image/png;base64," +:+ Base64.base64_encode buffer))
  = [("imageBase64", Base64.base64_encode buffer); ("imageMimeType", "image/png")].
Proof.
  remember ("data:image/png;base64," +:+ Base64.base64_encode buffer) as data
    eqn:Hdata.
  assert (H1 : truthy_string (Some data) = true) by (by subst).
  assert (H2 : startsWith data "data:" = true) by (by subst).
  assert (H3 : split "," data
               = ["data:image/png;base64"; Base64.base64_encode buffer]).
  { subst data.
    change ("data:image/png;base64," +:+ Base64.base64_encode buffer)
      with ("data:image/png;base64" +:+ String "," (Base64.base64_encode buffer)).
    rewrite split_app_sep by reflexivity.
    by rewrite (split_no_sep _ _ (encode_no_comma buffer)). }
  unfold image_form. cbv zeta. cbn [from_option]. unfold id at 1.
  rewrite H1, H2. unfold id. rewrite H3. reflexivity.
Qed.

Lemma image_form_keys image kv :
  kv ∈ image_form image → kv.1 = "imageBase64" ∨ kv.1 = "imageMimeType".
Proof.
  unfold image_form. cbv zeta.
  repeat case_match; rewrite ?elem_of_cons, ?elem_of_nil;
    intros Hkv; repeat destruct Hkv as [Hkv|Hkv]; subst; auto; done.
Qed.

Lemma elem_of_if_singleton {A} (c : bool) (x y : A) :
  y ∈ (if c then [x] else []) ↔ c = true ∧ y = x.
Proof.
  destruct c.
  - rewrite list_elem_of_singleton. by split; [|intros [_ ?]].
  - rewrite elem_of_nil. by split; [|intros [? _]].
Qed.

Lemma base_form_number p value :
  ("numberOfVideos", value) ∈ base_form p
  ↔ isVeo2 p && truthy_number (numberOfVideos p) = true
    ∧ value = JS.show_number (numberOfVideos p).
Proof.
  unfold base_form. rewrite !elem_of_app, !elem_of_if_singleton.
  rewrite !elem_of_cons, elem_of_nil. split.
  - intros [[H|[H|[]]]|[[_ H]|[H|[H|[Hc H]]]]]; try discriminate.
    + destruct (bool_decide _); [by apply elem_of_nil in H|].
      apply list_elem_of_singleton in H. discriminate.
    + destruct (personGeneration p); [|by apply elem_of_nil in H].
      apply list_elem_of_singleton in H. discriminate.
    + by simplify_eq.
  - intros [Hc ->]. repeat right. done.
Qed.

End FormFacts.

(** X15: with a non-empty [useImageId] and [useLatestImage] not set, an
    accepted request carries the stored image: its bytes in base64 as
    [imageBase64] and [image/png] as [imageMimeType]; and when no file is
    stored under that id the request carries no image field at all, even
    if an [imageFile] was uploaded. *)
Theorem stored_image_is_sent (env : Env) (p : Actions.GenerateVideoParams)
    (w : World) (imageId : string) :
  Actions.validation p = None →
  truthy_bool (Actions.useLatestImage p) = false →
  Actions.useImageId p = Some imageId →
  imageId ≠ "" →
  (∀ bytes, files w !! ImageStore.image_path imageId = Some bytes →
     requests (dispatch env (GenerateVeoVideo p) w)
     = [PostForm (baseUrl env +:+ "/api/veo/generate")
          (Actions.base_form p
           ++ [("imageBase64", Base64.base64_encode bytes);
               ("imageMimeType", "image/png")])])
  ∧ (files w !! ImageStore.image_path imageId = None →
     requests (dispatch env (GenerateVeoVideo p) w)
     = [PostForm (baseUrl env +:+ "/api/veo/generate") (Actions.base_form p)]).
Proof.
  intros Hv Hlatest Hid Hne.
  destruct (VideoFacts.dispatch_started env p w Hv) as (-> & _).
  unfold chosen_image. rewrite Hlatest, Hid. cbn [truthy_string from_option].
  rewrite (bool_decide_eq_false_2 _ Hne). cbn [negb]. unfold id.
  unfold ImageStore.loadImage. split.
  - intros bytes ->. by rewrite FormFacts.image_form_loaded.
  - intros ->. by rewrite app_nil_r.
Qed.

Lemma stored_image_is_sent_witness :
  let p := {| Actions.prompt := "the lighthouse at night";
              Actions.model := Actions.veo_2_0_generate_001;
              Actions.negativePrompt := None;
              Actions.aspectRatio := Actions.ar_16_9;
              Actions.personGeneration := None;
              Actions.numberOfVideos := 1%Qc;
              Actions.useImageId := Some "img-1";
              Actions.useLatestImage := None;
              Actions.imageFile := None |} in
  requests (dispatch offline (GenerateVeoVideo p) sample_world)
  = [PostForm (baseUrl offline +:+ "/api/veo/generate")
       (Actions.base_form p
        ++ [("imageBase64", Base64.base64_encode [Byte.x89; Byte.x50]);
            ("imageMimeType", "image/png")])].
Proof.
  intros p.
  destruct (stored_image_is_sent offline p sample_world "img-1") as (H & _).
  - reflexivity.
  - reflexivity.
  - reflexivity.
  - discriminate.
  - apply H. reflexivity.
Defined.

(** X16: an accepted request always sends [prompt] and [model] first, and
    sends [numberOfVideos] exactly when the model is
    [veo-2.0-generate-001] and the number is not zero. *)
Theorem number_of_videos_only_for_veo2 (env : Env)
    (p : Actions.GenerateVideoParams) (w : World) :
  Actions.validation p = None →
  ∃ url form,
    requests (dispatch env (GenerateVeoVideo p) w) = [PostForm url form]
    ∧ form !! 0%nat = Some ("prompt", Actions.prompt p)
    ∧ form !! 1%nat = Some ("model", Actions.model_name (Actions.model p))
    ∧ ∀ value,
        ("numberOfVideos", value) ∈ form
        ↔ Actions.model p = Actions.veo_2_0_generate_001
          ∧ Actions.numberOfVideos p ≠ 0%Qc
          ∧ value = JS.show_number (Actions.numberOfVideos p).
Proof.
  intros Hv. destruct (VideoFacts.dispatch_started env p w Hv) as (-> & _).
  eexists _, _. split; [reflexivity|].
  split; [reflexivity|].
  split; [unfold Actions.base_form; by destruct (Actions.model p)|].
  intros value. rewrite elem_of_app, FormFacts.base_form_number. split.
  - intros [[Hc ->]|Hin].
    + apply andb_prop in Hc as [Hm Hn].
      unfold Actions.isVeo2 in Hm. unfold truthy_number in Hn.
      apply negb_true_iff, bool_decide_eq_false_1 in Hn.
      split; [by destruct (Actions.model p)|]. done.
    + apply FormFacts.image_form_keys in Hin. by destruct Hin.
  - intros (Hm & Hn & ->). left. split; [|done].
    unfold Actions.isVeo2, truthy_number. rewrite Hm.
    by rewrite (bool_decide_eq_false_2 _ Hn).
Qed.

Lemma number_of_videos_only_for_veo2_witness :
  ∃ url form,
    requests (dispatch offline
                (GenerateVeoVideo (text_request Actions.veo_2_0_generate_001))
                sample_world) = [PostForm url form]
    ∧ ("numberOfVideos", "1") ∈ form.
Proof.
  destruct (number_of_videos_only_for_veo2 offline
              (text_request Actions.veo_2_0_generate_001) sample_world)
    as (url & form & Hreq & _ & _ & Hn).
  - reflexivity.
  - exists url, form. split; [exact Hreq|]. apply Hn. split; [reflexivity|].
    split; [discriminate|reflexivity].
Defined.

(** ** [check-video-status] in detail *)
Module PollFacts.
Import Actions.

Lemma checkVideoStatus_detail env operationName s :
  (∃ requested,
      calls (checkVideoStatus env operationName s).2 = calls s ++ requested
      ∧ (length requested ≤ 2)%nat
      ∧ Forall (λ c, call_url c = baseUrl env +:+ "/api/veo/operation"
                     ∨ call_url c = baseUrl env +:+ "/api/veo/download") requested)
  ∧ ((∃ url,
         (checkVideoStatus env operationName s).1 = inr (ready_result url)
         ∧ memory (checkVideoStatus env operationName s).2
           = set_videos (update_first (has_operation operationName)
                           (mark_ready url) (videos (memory s))) (memory s))
     ∨ (∃ j, (checkVideoStatus env operationName s).1 = inr j
             ∧ field "status" (inr j) ≠ Some (JStr "ready")
             ∧ memory (checkVideoStatus env operationName s).2 = memory s)).
Proof.
  unfold checkVideoStatus, ready_result. ActionFacts.unfold_monad. cbv zeta.
  ActionFacts.case_split; simpl;
    (split;
     [first [ exists []; split; [by rewrite app_nil_r|]
            | eexists [_]; split; [reflexivity|]
            | eexists [_; _]; split; [by rewrite <- app_assoc|] ];
      (split; [simpl; lia|]);
      repeat first [apply List.Forall_nil | apply List.Forall_cons];
      simpl; auto
     |first [ left; eexists; split; reflexivity
            | right; eexists; split; [reflexivity|]; split; [|reflexivity];
              simpl; discriminate ]]).
Qed.

End PollFacts.



(** ** [generate-imagen-image] in detail *)
Module ImageFacts.
Import Actions.

Lemma add_images_nil mem : add_images [] mem = mem.
Proof. destruct mem. unfold add_images. simpl. by rewrite app_nil_r. Qed.

Lemma add_images_push i stored mem :
  add_images stored (push_image i mem) = add_images (i :: stored) mem.
Proof. unfold add_images, push_image. simpl. by rewrite <- app_assoc. Qed.

Lemma loadImage_is_Some imageId disk :
  is_Some (ImageStore.loadImage imageId disk)
  ↔ is_Some (disk !! ImageStore.image_path imageId).
Proof.
  unfold ImageStore.loadImage.
  destruct (disk !! ImageStore.image_path imageId); split; intros [? ?]; eauto; done.
Qed.

Lemma stored_on_mono prompt disk disk' i :
  (∀ path, is_Some (disk !! path) → is_Some (disk' !! path)) →
  stored_on prompt disk i → stored_on prompt disk' i.
Proof.
  intros Hmono (Hp & Hu & Hf). split_and!; try done.
  apply loadImage_is_Some. apply Hmono. by apply loadImage_is_Some.
Qed.

Lemma store_images_detail env prompt imgs : ∀ s,
  ∃ stored,
    (store_images env prompt imgs s).1 = inr stored
    ∧ memory (store_images env prompt imgs s).2 = add_images stored (memory s)
    ∧ calls (store_images env prompt imgs s).2 = calls s
    ∧ length stored = length (with_bytes imgs)
    ∧ Forall (stored_on prompt (disk (store_images env prompt imgs s).2)) stored
    ∧ (∀ path, is_Some (disk s !! path) →
               is_Some (disk (store_images env prompt imgs s).2 !! path))
    ∧ (stored = [] → disk (store_images env prompt imgs s).2 = disk s).
Proof.
  induction imgs as [|img imgs IH]; intros s.
  - exists []. simpl. by rewrite add_images_nil.
  - cbn [store_images]. unfold with_bytes. rewrite filter_cons.
    destruct (JS.truthy (JS.opt_get "imageBytes" img)) eqn:Hb.
    + rewrite decide_True by done.
      unfold store_image. ActionFacts.unfold_monad. cbv zeta. simpl.
      match goal with
      | |- context [store_images env prompt imgs ?s1] =>
          destruct (IH s1) as (stored & Hr & Hm & Hc & Hl & Hs & Hmono & _);
          destruct (store_images env prompt imgs s1) as [r s2]
      end.
      simpl in *. subst r. simpl. eexists. split; [reflexivity|].
      rewrite Hm, add_images_push. split; [done|]. split; [done|].
      split; [cbn [length]; f_equal; exact Hl|]. split; [|split; [|done]].
      * apply List.Forall_cons; [|done]. split_and!; try done.
        apply loadImage_is_Some. apply Hmono.
        unfold ImageStore.image_path. rewrite lookup_insert_eq. eauto.
      * intros path Hpath. apply Hmono.
        destruct (decide (ImageStore.path_join ImageStore.IMAGE_DIR
                            (randomUUID env (tick s) +:+ ".png") = path)) as [<-|Hne].
        -- rewrite lookup_insert_eq. eauto.
        -- by rewrite lookup_insert_ne.
    + rewrite decide_False by done.
      destruct (IH s) as (stored & Hr & Hm & Hc & Hl & Hs & Hmono & Hnil).
      exists stored. done.
Qed.

Lemma dispatch_generateImage env p w :
  requests (dispatch env (GenerateImagenImage p) w)
  = [PostJson (baseUrl env +:+ "/api/imagen/generate")
       (JObj [("prompt", JStr (gi_prompt p));
              ("numberOfImages", JNum (gi_numberOfImages p));
              ("aspectRatio", JStr (image_aspect_name (gi_aspectRatio p)))])]
  ∧ ((∃ e, result (dispatch env (GenerateImagenImage p) w)
           = inr (failure e "Failed to generate images")
           ∧ world (dispatch env (GenerateImagenImage p) w) = w
           ∧ ∀ response,
               fetch env 0 (PostJson (baseUrl env +:+ "/api/imagen/generate")
                              (JObj [("prompt", JStr (gi_prompt p));
                                     ("numberOfImages", JNum (gi_numberOfImages p));
                                     ("aspectRatio",
                                      JStr (image_aspect_name (gi_aspectRatio p)))]))
               = inr response →
               (ok response = false →
                e = "Failed to generate image: " +:+ statusText response)
               ∧ (∀ body imgs,
                    ok response = true → json response = inr body →
                    JS.opt_get "images" body = JArr imgs → with_bytes imgs = []))
     ∨ (∃ stored message,
           stored ≠ []
           ∧ result (dispatch env (GenerateImagenImage p) w)
             = inr (JObj [success_field true;
                          ("imageIds", JArr (map (λ i, JStr (img_id i)) stored));
                          ("images", JArr (map image_json stored));
                          ("count", JS.of_nat (length stored));
                          ("message", JStr message)])
           ∧ project (world (dispatch env (GenerateImagenImage p) w))
             = add_images stored (project w)
           ∧ Forall (stored_on (gi_prompt p)
                       (files (world (dispatch env (GenerateImagenImage p) w))))
               stored
           ∧ (∀ path, is_Some (files w !! path) →
                is_Some (files (world (dispatch env (GenerateImagenImage p) w))
                           !! path))
           ∧ (∀ imgs response body,
                fetch env 0 (PostJson (baseUrl env +:+ "/api/imagen/generate")
                               (JObj [("prompt", JStr (gi_prompt p));
                                      ("numberOfImages", JNum (gi_numberOfImages p));
                                      ("aspectRatio",
                                       JStr (image_aspect_name (gi_aspectRatio p)))]))
                = inr response →
                json response = inr body →
                JS.opt_get "images" body = JArr imgs →
                length stored = length (with_bytes imgs))
           ∧ (∀ response,
                fetch env 0 (PostJson (baseUrl env +:+ "/api/imagen/generate")
                               (JObj [("prompt", JStr (gi_prompt p));
                                      ("numberOfImages", JNum (gi_numberOfImages p));
                                      ("aspectRatio",
                                       JStr (image_aspect_name (gi_aspectRatio p)))]))
                = inr response →
                ok response = true))).
Proof.
  unfold dispatch, run_in, generateImage. ActionFacts.unfold_monad. cbv zeta. simpl.
  destruct (fetch env _ _) as [e|response] eqn:Hfetch; simpl.
  { split; [done|]. left. eexists. split; [done|]. split; [by destruct w|].
    intros response' Hfetch'. congruence. }
  destruct (ok response) eqn:Hok; simpl;
    [|split; [done|]; left; eexists; split; [done|]; split; [by destruct w|];
      intros response' Hfetch'; assert (response' = response) as -> by congruence;
      split; [done|]; intros; congruence].
  destruct (json response) as [e|body] eqn:Hjson; simpl.
  { split; [done|]. left. eexists. split; [done|]. split; [by destruct w|].
    intros response' Hfetch'. assert (response' = response) as -> by congruence.
    split; [congruence|]. intros; congruence. }
  destruct (JS.opt_get "images" body) eqn:Himages;
    try (unfold store_image; ActionFacts.unfold_monad; cbv zeta;
         destruct (JS.truthy (JS.opt_get "imageBytes" (JS.opt_get "image" body)));
         simpl; (split; [done|]);
         [right;
          eexists [ {| img_id := _; img_prompt := _; img_url := _;
                       img_createdAt := _ |} ], _;
          split; [done|]; split; [reflexivity|];
          split; [by destruct w as [[] ? ? ? ?]|];
          split; [apply List.Forall_cons; [|done]; split_and!; try done;
                  apply loadImage_is_Some; unfold ImageStore.image_path;
                  rewrite lookup_insert_eq; eauto|];
          split; [intros path Hpath;
                  match goal with
                  | |- is_Some (<[?k := _]> _ !! path) =>
                      destruct (decide (k = path)) as [<-|Hne];
                      [rewrite lookup_insert_eq; eauto|by rewrite lookup_insert_ne]
                  end|];
          split; [intros imgs ? ? ? ? ?; congruence|intros ? ?; congruence]
         |left; eexists; split; [done|]; split; [by destruct w|];
          intros response' Hfetch';
          assert (response' = response) as -> by congruence;
          split; [congruence|]; intros; congruence]).
  match goal with
  | |- context [store_images env ?pr elements ?s1] =>
      destruct (store_images_detail env pr elements s1)
        as (stored & Hr & Hm & Hc & Hl & Hs & Hmono & Hnil);
      destruct (store_images env pr elements s1) as [r s2]
  end.
  simpl in *. subst r.
  destruct stored as [|i stored]; simpl; rewrite Hc; (split; [done|]).
  - left. eexists. split; [done|]. rewrite Hm, add_images_nil, Hnil by done.
    split; [by destruct w|].
    intros response' Hfetch'. assert (response' = response) as -> by congruence.
    split; [congruence|]. intros body' imgs _ Hjson' Himages'.
    assert (elements = imgs) as <- by congruence.
    symmetry in Hl. by apply nil_length_inv in Hl.
  - right. eexists (i :: stored), _. split; [done|]. split; [reflexivity|].
    split; [by rewrite Hm|]. split; [done|]. split; [done|].
    split; [|intros ? ?; congruence].
    intros imgs response' body' Hfetch' Hjson' Himages'.
    assert (elements = imgs) as <- by congruence. exact Hl.
Qed.

End ImageFacts.




(** X20: clearing a project twice is clearing it once, and [list-media]
    right after a confirmed clear reports no video and no image;
    [list-media] itself never changes the world and sends nothing. *)
Theorem clear_then_list (env env' env'' : Env) (w : World)
    (type : Actions.MediaType) (status : Actions.StatusFilter) :
  let cleared := world (dispatch env (ClearProject true) w) in
  world (dispatch env' (ClearProject true) cleared) = cleared
  ∧ result (dispatch env'' (ListMedia Actions.mt_all Actions.sf_all) cleared)
    = inr (JObj [success_field true; ("videos", JArr []); ("images", JArr []);
                 ("summary", JStr "Found 0 videos and 0 images")])
  ∧ world (dispatch env'' (ListMedia type status) w) = w
  ∧ requests (dispatch env'' (ListMedia type status) w) = [].
Proof.
  intros cleared. subst cleared.
  rewrite !ClearFacts.dispatch_clear_confirmed. cbn [world project files images].
  by split_and!; try (by destruct w).
Qed.

(** ** Workflows are recorded, not run *)
Module WorkflowFacts.

Lemma workflows_dispatch env a w :
  activeWorkflows (project (world (dispatch env a w)))
  = match a with
    | ClearProject true => []
    | _ => activeWorkflows (project w) ++ option_list (started_workflow (env, a))
    end.
Proof.
  destruct a as [p|op|p|t st|c|n st|p|p|n st|pr op|id st url|pr url];
    try (destruct w; simpl; by rewrite ?app_nil_r).
  - cbn [started_workflow snd option_list]. rewrite app_nil_r.
    destruct (Actions.validation p) as [rejected|] eqn:Hv.
    + by rewrite (ValidationFacts.dispatch_rejected env p w rejected Hv).
    + by destruct (VideoFacts.dispatch_started env p w Hv)
        as (_ & [(e & _ & ->)|(name & _ & ->)]).
  - cbn [started_workflow snd option_list]. rewrite app_nil_r.
    unfold dispatch. rewrite StatusFacts.project_run_in.
    by destruct (ActionFacts.checkVideoStatus_cases env op
                   (mkHState (project w) (files w) [] 0%nat))
      as (j & _ & _ & _ & [-> | [url ->]]).
  - cbn [started_workflow snd option_list]. rewrite app_nil_r.
    unfold dispatch. rewrite StatusFacts.project_run_in.
    by destruct (ActionFacts.generateImage_cases env p
                   (mkHState (project w) (files w) [] 0%nat))
      as (j & _ & _ & _ & ->).
  - destruct c; destruct w; simpl; by rewrite ?app_nil_r.
Qed.

Lemma started_workflow_pending step wf :
  started_workflow step = Some wf →
  Forall (λ st, ws_status st = step_pending) (wf_steps wf).
Proof.
  unfold started_workflow. destruct (step.2); try done. intros [= <-]. simpl.
  by apply Forall_fmap, Forall_true.
Qed.

End WorkflowFacts.

(** X21: workflows are recorded and never run: along every sequence of
    actions without a confirmed [clear-project], the list of active
    workflows is the old list followed by one workflow per
    [start-workflow] call, in order, each with the requested steps, all
    [pending]; no action changes a workflow once recorded. *)
Theorem workflows_only_recorded (steps : list (Env * Action)) (w : World) :
  Forall (λ step : Env * Action, step.2 ≠ ClearProject true) steps →
  activeWorkflows (project (run steps w))
  = activeWorkflows (project w) ++ omap started_workflow steps.
Proof.
  revert w. induction steps as [|[env a] steps IH]; intros w Hsteps.
  - simpl. by rewrite app_nil_r.
  - apply Forall_cons in Hsteps as [Ha Hsteps]. cbn [run].
    rewrite (IH _ Hsteps), WorkflowFacts.workflows_dispatch.
    assert (Hcase : match a with
                    | ClearProject true => []
                    | _ => activeWorkflows (project w)
                           ++ option_list (started_workflow (env, a))
                    end
                    = activeWorkflows (project w)
                      ++ option_list (started_workflow (env, a))).
    { destruct a as [| | | |[]| | | | | | |]; done. }
    rewrite Hcase, <- app_assoc. f_equal. simpl.
    by destruct (started_workflow (env, a)).
Qed.

Lemma workflows_only_recorded_witness :
  activeWorkflows
    (project (run [(offline, StartWorkflow "teaser"
                               [(step_generate_image, JNull);
                                (step_generate_video, JNull)]);
                   (offline, ClearProject false)] sample_world))
  = [{| wf_id := "uuid-0"; wf_name := "teaser";
        wf_steps := [{| ws_type := step_generate_image; ws_params := JNull;
                        ws_status := step_pending |};
                     {| ws_type := step_generate_video; ws_params := JNull;
                        ws_status := step_pending |}];
        wf_startedAt := 1 |}].
Proof.
  apply (workflows_only_recorded
           [(offline, StartWorkflow "teaser"
                        [(step_generate_image, JNull); (step_generate_video, JNull)]);
            (offline, ClearProject false)] sample_world).
  repeat constructor; discriminate.
Defined.

(** X22: no action ever advances a workflow step: if every step of every
    active workflow is [pending], that is still so after every sequence of
    actions. *)
Theorem steps_stay_pending (steps : list (Env * Action)) (w : World) :
  all_pending (project w) → all_pending (project (run steps w)).
Proof.
  revert w. induction steps as [|[env a] steps IH]; intros w Hw; [done|].
  cbn [run]. apply IH. unfold all_pending.
  rewrite WorkflowFacts.workflows_dispatch.
  assert (Happ : Forall (λ wf, Forall (λ st, ws_status st = step_pending)
                                 (wf_steps wf))
                   (activeWorkflows (project w)
                    ++ option_list (started_workflow (env, a)))).
  { apply Forall_app. split; [exact Hw|].
    destruct (started_workflow (env, a)) as [wf|] eqn:Hs; simpl; [|done].
    apply List.Forall_cons; [|done].
    by apply (WorkflowFacts.started_workflow_pending (env, a)). }
  destruct a as [| | | |[]| | | | | | |]; done.
Qed.

Lemma steps_stay_pending_witness :
  all_pending
    (project (run [(offline, StartWorkflow "teaser" [(step_wait, JNull)]);
                   (offline, GenerateVeoVideo
                               (text_request Actions.veo_2_0_generate_001))]
                sample_world)).
Proof.
  apply (steps_stay_pending _ sample_world). unfold all_pending. simpl. done.
Defined.

(** ** Validation, in full *)

(** X23: which requests pass the guards of [generate-veo-video]: every
    request for [veo-2.0-generate-001]; and a request for a Veo 3 family
    model exactly when its aspect ratio is 16:9, it asks for at most one
    video, and it either names no [personGeneration], names [allow_all],
    or comes with an image input that is not empty. *)
Theorem validation_accepts_iff (p : Actions.GenerateVideoParams) :
  Actions.validation p = None
  ↔ Actions.model p = Actions.veo_2_0_generate_001
    ∨ (veo3_family (Actions.model p)
       ∧ Actions.aspectRatio p = Actions.ar_16_9
       ∧ (Actions.numberOfVideos p ≤ 1)%Qc
       ∧ (Actions.personGeneration p = None
          ∨ Actions.personGeneration p = Some Actions.allow_all
          ∨ truthy_string (Actions.imageFile p) = true
          ∨ truthy_string (Actions.useImageId p) = true
          ∨ truthy_bool (Actions.useLatestImage p) = true)).
Proof.
  assert (Hnum : truthy_number (Actions.numberOfVideos p)
                 && bool_decide (1 < Actions.numberOfVideos p)%Qc = false
                 ↔ (Actions.numberOfVideos p ≤ 1)%Qc).
  { unfold truthy_number. split.
    - intros H. apply Qcnot_lt_le. intros Hlt.
      rewrite (bool_decide_eq_true_2 _ Hlt), andb_true_r in H.
      apply negb_false_iff, bool_decide_eq_true_1 in H.
      rewrite H in Hlt. apply Qclt_not_le in Hlt. apply Hlt.
      unfold Qcle, Qle. simpl. lia.
    - intros Hle. rewrite (bool_decide_eq_false_2 (1 < _)%Qc), andb_false_r; [done|].
      by apply Qcle_not_lt. }
  assert (Hguards : Actions.validation p = None
                    ↔ Actions.aspect_ratio_guard p = false
                      ∧ Actions.person_generation_guard p = false
                      ∧ Actions.number_of_videos_guard p = false).
  { unfold Actions.validation.
    destruct (Actions.aspect_ratio_guard p), (Actions.person_generation_guard p),
      (Actions.number_of_videos_guard p); split; try done; intros (? & ? & ?); done. }
  rewrite Hguards. clear Hguards.
  unfold Actions.aspect_ratio_guard, Actions.person_generation_guard,
    Actions.number_of_videos_guard, veo3_family, Actions.isVeo3, Actions.isVeo2.
  destruct (Actions.model p) eqn:Hm; cbn [Actions.model_name].
  3: { split; [by left|]. intros _. by split_and!. }
  all: change (startsWith _ "veo-3.0") with true;
    change (bool_decide (_ = "veo-2.0-generate-001")) with false;
    cbn [andb negb]; rewrite Hnum; split.
  all: try (intros (Ha & Hp & Hn); right;
            split; [auto|]; split; [by destruct (Actions.aspectRatio p)|];
            split; [done|];
            destruct (truthy_string (Actions.imageFile p)); [auto|];
            destruct (truthy_string (Actions.useImageId p)); [auto|];
            destruct (truthy_bool (Actions.useLatestImage p)); [auto 6|];
            destruct (Actions.personGeneration p) as [[]|]; auto; done).
  all: intros [?|(_ & -> & Hn & Hpg)]; [done|];
    split; [done|]; split; [|done];
    destruct Hpg as [-> | [-> | [-> | [-> | ->]]]];
    rewrite ?andb_false_r; done.
Qed.

Lemma validation_accepts_iff_witness :
  Actions.validation (text_request Actions.veo_3_0_fast_generate_preview) = None.
Proof.
  apply (validation_accepts_iff (text_request Actions.veo_3_0_fast_generate_preview)).
  right. split; [right; reflexivity|]. split; [reflexivity|].
  split; [discriminate|]. left. reflexivity.
Defined.

(** ** What goes out *)

(** X24: a handler only ever calls the application's own routes, under the
    base URL, which is never empty; an action sends at most two requests,
    and only the three generation and polling actions of the project
    container send any. *)
Theorem requests_stay_home (env : Env) (a : Action) (w : World) :
  let outcome := dispatch env a w in
  baseUrl env ≠ ""
  ∧ (length (requests outcome) ≤ 2)%nat
  ∧ Forall (λ c, ∃ route, route ∈ own_routes
                          ∧ call_url c = baseUrl env +:+ route)
      (requests outcome)
  ∧ (requests outcome ≠ [] →
     (∃ p, a = GenerateVeoVideo p) ∨ (∃ operationName, a = CheckVideoStatus operationName)
     ∨ (∃ p, a = GenerateImagenImage p)).
Proof.
  intros outcome. subst outcome. split.
  { unfold baseUrl. destruct (NEXT_PUBLIC_URL env) as [u|]; [|done].
    by case_bool_decide. }
  destruct a as [p|op|p|t st|c|n st|p|p|n st|pr op|id st url|pr url];
    try (destruct w; simpl; split; [lia|]; split; [by apply List.Forall_nil|done]).
  - destruct (Actions.validation p) as [rejected|] eqn:Hv.
    + rewrite (ValidationFacts.dispatch_rejected env p w rejected Hv). simpl.
      split; [lia|]. split; [by apply List.Forall_nil|done].
    + destruct (VideoFacts.dispatch_started env p w Hv) as (-> & _). simpl.
      split; [lia|]. split; [|eauto].
      apply List.Forall_cons; [|done]. exists "/api/veo/generate".
      split; [|done]. unfold own_routes. by left.
  - unfold dispatch, run_in.
    destruct (PollFacts.checkVideoStatus_detail env op
                (mkHState (project w) (files w) [] 0%nat))
      as ((requested & Hc & Hlen & Hurls) & _).
    destruct (Actions.checkVideoStatus env op _) as [r s']. simpl in *.
    rewrite Hc. split; [done|]. split; [|eauto].
    eapply Forall_impl; [exact Hurls|]. intros c [Hu|Hu].
    + exists "/api/veo/operation". split; [|done]. unfold own_routes.
      by right; left.
    + exists "/api/veo/download". split; [|done]. unfold own_routes.
      by right; right; left.
  - destruct (ImageFacts.dispatch_generateImage env p w) as (-> & _). simpl.
    split; [lia|]. split; [|eauto 6].
    apply List.Forall_cons; [|done]. exists "/api/imagen/generate".
    split; [|done]. unfold own_routes. by right; right; right; left.
  - destruct c; destruct w; simpl; split; [lia| |lia|];
      (split; [by apply List.Forall_nil|done]).
Qed.

Lemma requests_stay_home_witness :
  let outcome :=
    dispatch (answering (JObj [("done", JBool true);
                               ("response",
                                JObj [("generatedVideos",
                                       JArr [JObj [("video",
                                                    JObj [("uri", JStr "files/1")])]])])]))
      (CheckVideoStatus "operations/1") sample_world in
  length (requests outcome) = 2%nat
  ∧ ((∃ p, CheckVideoStatus "operations/1" = GenerateVeoVideo p)
     ∨ (∃ operationName, CheckVideoStatus "operations/1" = CheckVideoStatus operationName)
     ∨ (∃ p, CheckVideoStatus "operations/1" = GenerateImagenImage p)).
Proof.
  intros outcome. split; [reflexivity|].
  destruct (requests_stay_home
              (answering (JObj [("done", JBool true);
                                ("response",
                                 JObj [("generatedVideos",
                                        JArr [JObj [("video",
                                                     JObj [("uri", JStr "files/1")])]])])]))
              (CheckVideoStatus "operations/1") sample_world) as (_ & _ & _ & H).
  apply H. vm_compute. discriminate.
Defined.

(** ** The image route and the action that calls it *)
Module RouteFacts.
Import ImagenRoute.

Lemma truthy_or_else a b : JS.truthy b = true → JS.truthy (JS.or_else a b) = true.
Proof. unfold JS.or_else. by destruct (JS.truthy a) eqn:E. Qed.

Lemma project_image_mime img projected :
  project_image img = inr projected →
  JS.truthy (JS.opt_get "mimeType" projected) = true.
Proof.
  unfold project_image. destruct (JS.get "image" img) as [e|image]; [done|].
  intros [= <-]. simpl. by apply truthy_or_else.
Qed.

Lemma project_images_mime imgs : ∀ projected,
  project_images imgs = inr projected →
  Forall (λ img, JS.truthy (JS.opt_get "mimeType" img) = true) projected.
Proof.
  induction imgs as [|img imgs IH]; intros projected; simpl.
  - by intros [= <-].
  - destruct (project_image img) as [e|first] eqn:Hfirst; [done|].
    destruct (project_images imgs) as [e|others]; [done|].
    intros [= <-]. apply List.Forall_cons; [|by apply IH].
    by apply (project_image_mime img).
Qed.

Lemma truthy_serialize v : JS.truthy (serialize v) = JS.truthy v.
Proof. by destruct v. Qed.



Lemma route_cases generateImages request :
  (∃ first rest,
      POST generateImages request
      = (200%nat, JObj [("images", JArr (first :: rest)); ("image", first)])
      ∧ Forall (λ img, JS.truthy (JS.opt_get "imageBytes" img) = true
                       ∧ JS.truthy (JS.opt_get "mimeType" img) = true)
          (first :: rest))
  ∨ (∃ message,
        POST generateImages request = (400%nat, JObj [("error", JStr message)])
        ∨ POST generateImages request = (500%nat, JObj [("error", JStr message)])).
Proof.
  unfold POST, server_error. destruct request as [e|body]; [right; eauto|].
  cbv zeta.
  destruct (negb _); [right; eauto|].
  destruct (generateImages _) as [e|resp]; [right; eauto|].
  destruct (JS.get "generatedImages" resp) as [e|[| | | | |generated|]];
    try (right; eauto; fail).
  destruct (project_images generated) as [e|projected] eqn:Hp; [right; eauto|].
  destruct (filter _ projected) as [|first rest] eqn:Hf; [right; eauto|].
  left. exists first, rest. split; [done|]. rewrite <- Hf.
  apply List.Forall_forall. intros img Hin.
  rewrite <- list_elem_of_In in Hin.
  apply list_elem_of_filter in Hin as [Hbytes Hin].
  split; [done|].
  pose proof (project_images_mime generated projected Hp) as Hmime.
  rewrite List.Forall_forall in Hmime. apply Hmime. by apply list_elem_of_In.
Qed.

End RouteFacts.

(** X25: the image route answers 200 only with a non-empty [images] list
    whose every element carries bytes and a media type, and with [image]
    the first of them; every other answer is 400 or 500 with an [error]
    string; a request without a prompt is answered 400 whatever the
    provider would say, and a request whose body cannot be read, 500. *)
Theorem imagen_route_answers (generateImages : Json → Exn + Json)
    (request : Exn + Json) :
  let answer := ImagenRoute.POST generateImages request in
  (answer.1 = 200%nat →
   ∃ first rest,
     answer.2 = JObj [("images", JArr (first :: rest)); ("image", first)]
     ∧ Forall (λ img, JS.truthy (JS.opt_get "imageBytes" img) = true
                      ∧ JS.truthy (JS.opt_get "mimeType" img) = true)
         (first :: rest))
  ∧ (answer.1 ≠ 200%nat →
     (answer.1 = 400%nat ∨ answer.1 = 500%nat)
     ∧ ∃ message, answer.2 = JObj [("error", JStr message)])
  ∧ (∀ body, request = inr body →
       JS.truthy (JS.opt_get "prompt" body) = false →
       answer = (400%nat, JObj [("error", JStr "Missing prompt")]))
  ∧ (∀ e, request = inl e →
       answer = (500%nat, JObj [("error", JStr "Failed to generate image")])).
Proof.
  intros answer. subst answer. split_and!.
  - destruct (RouteFacts.route_cases generateImages request)
      as [(first & rest & -> & H)|(message & [-> | ->])]; try done.
    intros _. eauto.
  - destruct (RouteFacts.route_cases generateImages request)
      as [(first & rest & -> & H)|(message & [-> | ->])]; try done;
      intros _; eauto.
  - intros body -> Hprompt. unfold ImagenRoute.POST. cbv zeta.
    unfold JS.or_else at 1. by rewrite Hprompt.
  - by intros e ->.
Qed.

Lemma imagen_route_answers_witness :
  ImagenRoute.POST (λ _, inr JNull) (inr (JObj [("prompt", JStr "")]))
  = (400%nat, JObj [("error", JStr "Missing prompt")]).
Proof.
  destruct (imagen_route_answers (λ _, inr JNull) (inr (JObj [("prompt", JStr "")])))
    as (_ & _ & H & _).
  apply (H (JObj [("prompt", JStr "")])); reflexivity.
Defined.


